(** * A DDPG agent (mountain_car/ddpg.py): shallow embedding and properties

    The agent of [ddpg.py] is embedded as a Python-like program over an
    explicit agent state: every method of the class [DDPG] becomes a
    computation in a small state-and-exception monad, statement by
    statement.

    Conventions of the embedding:
    - numpy's floating-point arrays are idealised as arrays of exact
      rationals ([Q]), so rounding, infinities and NaN are out of scope;
      [dones] alone keeps its machine type, [uint8];
    - a rank-1 array (a state, an action, a bound, a noise sample) is a list,
      a batch is the list of its rows, a column of scalars is a list of
      scalars; a weight tensor carries its shape next to its row-major
      contents;
    - the random draws a call consumes are arguments of the call;
    - the agent records the calls it makes in a [trace], which the program
      never reads. *)

From Stdlib Require Import String.
From Stdlib Require Import List Sorted ZArith QArith Qminmax Qfield Lqa Lia Bool PeanoNat.
Import ListNotations.

Open Scope Q_scope.
Set Warnings "-abstract-large-number".

(** ** Exceptions *)

Inductive exn : Type :=
| AssertionError
| ValueError
| IndexError
| InsufficientDataError.

(** A fallible value: [inl e] is a raised exception. *)
Definition result (A : Type) : Type := (exn + A)%type.

Definition ok {A} (a : A) : result A := inr a.
Definition throw {A} (e : exn) : result A := inl e.

Definition rbind {A B} (r : result A) (k : A -> result B) : result B :=
  match r with
  | inl e => inl e
  | inr a => k a
  end.

Fixpoint rmapM {A B} (f : A -> result B) (xs : list A) : result (list B) :=
  match xs with
  | [] => ok []
  | x :: xs' => rbind (f x) (fun y => rbind (rmapM f xs') (fun ys => ok (y :: ys)))
  end.

(** ** The numpy fragment the agent uses *)

Module Np.

(** A rank-1 array. *)
Definition vec : Type := list Q.

Fixpoint zip_with {A B C} (f : A -> B -> C) (xs : list A) (ys : list B) : list C :=
  match xs, ys with
  | x :: xs', y :: ys' => f x y :: zip_with f xs' ys'
  | _, _ => []
  end.

(** Elementwise binary operation on two rank-1 arrays, with numpy's
    broadcasting: equal lengths pair up, a length-1 operand is stretched,
    anything else raises. *)
Definition broadcast1 {A B C} (f : A -> B -> C) (xs : list A) (ys : list B)
  : result (list C) :=
  if Nat.eqb (length xs) (length ys) then ok (zip_with f xs ys)
  else match xs, ys with
       | [x], _ => ok (map (f x) ys)
       | _, [y] => ok (map (fun x => f x y) xs)
       | _, _ => throw ValueError
       end.

Definition sub (x y : vec) : result vec := broadcast1 Qminus x y.
Definition add (x y : vec) : result vec := broadcast1 Qplus x y.
Definition div (x y : vec) : result vec := broadcast1 Qdiv x y.
Definition maximum (x y : vec) : result vec := broadcast1 Qmax x y.
Definition minimum (x y : vec) : result vec := broadcast1 Qmin x y.

(** Array-with-scalar operations. *)
Definition muls (x : vec) (c : Q) : vec := map (fun a => a * c) x.
Definition smul (c : Q) (x : vec) : vec := map (fun a => c * a) x.
Definition subs (x : vec) (c : Q) : vec := map (fun a => a - c) x.

(** [np.clip(a, lo, hi)] is [np.minimum(hi, np.maximum(a, lo))]. *)
Definition clip (a lo hi : vec) : result vec :=
  rbind (maximum a lo) (fun m => minimum hi m).

(** [n] consecutive chunks of length [k]. *)
Fixpoint chunks (k n : nat) (d : list Q) : list (list Q) :=
  match n with
  | O => []
  | S n' => firstn k d :: chunks k n' (skipn k d)
  end.

(** [np.reshape(a, [-1, k])] of an array with contents [d] (row-major):
    the rows of length [k], when the size is a multiple of [k]. *)
Definition reshape_rows (k : nat) (d : list Q) : result (list vec) :=
  match k with
  | O => throw ValueError
  | S _ => if Nat.eqb (length d mod k) 0
           then ok (chunks k (length d / k) d)
           else throw ValueError
  end.

(** [np.vstack] of rank-1 arrays: they become the rows of a matrix and must
    agree in length; an empty sequence is refused. *)
Definition vstack (rows : list vec) : result (list vec) :=
  match rows with
  | [] => throw ValueError
  | r :: rest =>
      if forallb (fun r' => Nat.eqb (length r') (length r)) rest
      then ok rows else throw ValueError
  end.

(** *** Tensors of any rank *)

Record ndarray : Type := mk_ndarray {
  shape : list nat;
  data : list Q          (* row-major, [length data = size shape] *)
}.

Definition size (s : list nat) : nat := fold_right Nat.mul 1%nat s.

Definition wf_ndarray (a : ndarray) : Prop := length (data a) = size (shape a).

Definition shape_eqb (s1 s2 : list nat) : bool :=
  if list_eq_dec Nat.eq_dec s1 s2 then true else false.

(** Shapes are aligned on their last axis: the shorter one is padded with
    leading 1s. *)
Definition pad_shape (r : nat) (s : list nat) : list nat :=
  repeat 1%nat (r - length s) ++ s.

(** The common shape of two shapes of equal rank, axis by axis. *)
Fixpoint broadcast_shapes (s1 s2 : list nat) : option (list nat) :=
  match s1, s2 with
  | [], [] => Some []
  | a :: s1', b :: s2' =>
      match broadcast_shapes s1' s2' with
      | None => None
      | Some s =>
          if Nat.eqb a b then Some (a :: s)
          else if Nat.eqb a 1 then Some (b :: s)
          else if Nat.eqb b 1 then Some (a :: s)
          else None
      end
  | _, _ => None
  end.

(** Contents of an array of shape [src] stretched to shape [tgt] (equal
    ranks, every axis of [src] either equal to that of [tgt] or 1). *)
Fixpoint broadcast_to (src tgt : list nat) (d : list Q) : list Q :=
  match src, tgt with
  | a :: src', b :: tgt' =>
      let rows := map (broadcast_to src' tgt') (chunks (size src') a d) in
      if Nat.eqb a b then concat rows
      else concat (concat (repeat rows b))
  | _, _ => d
  end.

(** Elementwise binary operation on two tensors. *)
Definition binop (f : Q -> Q -> Q) (x y : ndarray) : result ndarray :=
  if shape_eqb (shape x) (shape y)
  then ok (mk_ndarray (shape x) (zip_with f (data x) (data y)))
  else
    let r := Nat.max (length (shape x)) (length (shape y)) in
    let sx := pad_shape r (shape x) in
    let sy := pad_shape r (shape y) in
    match broadcast_shapes sx sy with
    | None => throw ValueError
    | Some s =>
        ok (mk_ndarray s (zip_with f (broadcast_to sx s (data x))
                                     (broadcast_to sy s (data y))))
    end.

Definition scale (c : Q) (x : ndarray) : ndarray :=
  mk_ndarray (shape x) (map (fun a => c * a) (data x)).

(** *** Arrays of weight tensors

    What [np.array] makes of the list [get_weights()] returns depends on
    the tensors' shapes and on the version of numpy.  Tensors of one common
    shape are stacked into one numeric array with a new leading axis.  For
    tensors of different shapes, numpy from 1.24 on raises.  numpy before
    1.24 takes the dimensions all shapes start with.  If there is none, it
    builds a rank-1 object array holding the tensors.  Otherwise it makes an
    array with one entry of these dimensions per tensor and copies each
    tensor into its entry: a tensor of exactly these dimensions fits, and so
    does a tensor of a single number (all its dimensions are 1, and the
    leading ones are stripped); any other tensor makes it raise. *)

Inductive version : Type :=
| Legacy     (* before 1.24 *)
| Strict.    (* 1.24 and later *)

(** An array of numbers with one entry per tensor along its first axis, or a
    rank-1 array of tensors.  The array of numbers numpy before 1.24 makes
    of single-number tensors of different ranks has the object type; it
    computes as an array of numbers does. *)
Inductive warray : Type :=
| Stacked (a : ndarray)
| Objects (ws : list ndarray).

(** All shapes are the first one. *)
Definition uniform (shs : list (list nat)) : bool :=
  match shs with
  | [] => true
  | sh :: rest => forallb (shape_eqb sh) rest
  end.

(** The dimensions two shapes, and all shapes of a list, start with. *)
Fixpoint common (a b : list nat) : list nat :=
  match a, b with
  | x :: a', y :: b' => if Nat.eqb x y then x :: common a' b' else []
  | _, _ => []
  end.

Definition common_prefix (shs : list (list nat)) : list nat :=
  match shs with
  | [] => []
  | sh :: rest => fold_left common rest sh
  end.

(** The shape of a single number: every dimension is 1. *)
Definition ones (sh : list nat) : bool := forallb (Nat.eqb 1) sh.

(** [np.array(ws)] for a list [ws] of arrays. *)
Definition array (v : version) (ws : list ndarray) : result warray :=
  let shs := map shape ws in
  if uniform shs then
    ok (Stacked (mk_ndarray (length ws :: hd [] shs) (concat (map data ws))))
  else match v with
       | Strict => throw ValueError
       | Legacy =>
           match common_prefix shs with
           | [] => ok (Objects ws)
           | p =>
               if forallb (fun sh => shape_eqb sh p || ones sh) shs
               then ok (Stacked (mk_ndarray (length ws :: p)
                                            (concat (map data ws))))
               else throw ValueError
           end
       end.

(** [len(a)] *)
Definition len (a : warray) : nat :=
  match a with
  | Stacked a => hd 0%nat (shape a)
  | Objects ws => length ws
  end.

(** [c * a] *)
Definition wscale (c : Q) (a : warray) : warray :=
  match a with
  | Stacked a => Stacked (scale c a)
  | Objects ws => Objects (map (scale c) ws)
  end.

(** A number plus a tensor, and a tensor plus a number. *)
Definition shift_l (c : Q) (w : ndarray) : ndarray :=
  mk_ndarray (shape w) (map (fun a => c + a) (data w)).
Definition shift_r (w : ndarray) (c : Q) : ndarray :=
  mk_ndarray (shape w) (map (fun a => a + c) (data w)).

(** [x + y].  Two arrays of numbers add as tensors, with broadcasting over
    their whole shapes; two object arrays add slot by slot; a vector of
    numbers and an object array add number by tensor.  A numeric array of
    higher rank against an object array either does not broadcast or gives
    an array of arrays that no weight can be set from: both end in a value
    error. *)
Definition wadd (x y : warray) : result warray :=
  match x, y with
  | Stacked a, Stacked b =>
      rbind (binop Qplus a b) (fun c => ok (Stacked c))
  | Objects xs, Objects ys =>
      rbind (broadcast1 (binop Qplus) xs ys) (fun rs =>
      rbind (rmapM (fun r => r) rs) (fun zs => ok (Objects zs)))
  | Stacked a, Objects ys =>
      match shape a with
      | [_] => rbind (broadcast1 shift_l (data a) ys) (fun zs => ok (Objects zs))
      | _ => throw ValueError
      end
  | Objects xs, Stacked b =>
      match shape b with
      | [_] => rbind (broadcast1 shift_r xs (data b)) (fun zs => ok (Objects zs))
      | _ => throw ValueError
      end
  end.

(** The entries along the first axis, as [set_weights] walks through the
    array: the slots of an object array, the sub-tensors of a numeric
    one. *)
Definition rows (a : warray) : list ndarray :=
  match a with
  | Objects ws => ws
  | Stacked a =>
      match shape a with
      | [] => []
      | n :: sh => map (mk_ndarray sh) (chunks (size sh) n (data a))
      end
  end.

End Np.

(** ** The Keras fragment the agent uses

    A model owns an ordered list of named weight variables and the slots of
    its optimizer.  [get_weights] returns the values in order, without the
    names; [set_weights] assigns values by position and refuses a list whose
    length or shapes differ from the model's variables, writing nothing. *)

Module Keras.

Record variable : Type := mk_variable {
  var_name : string;
  var_value : Np.ndarray
}.

Record model : Type := mk_model {
  variables : list variable;
  optimizer_slots : list Np.ndarray
}.

Definition get_weights (m : model) : list Np.ndarray :=
  map var_value (variables m).

Definition shapes (ws : list Np.ndarray) : list (list nat) := map Np.shape ws.

Definition assign (v : variable) (w : Np.ndarray) : variable :=
  mk_variable (var_name v) w.

Definition set_weights (m : model) (ws : list Np.ndarray) : result model :=
  if list_eq_dec (list_eq_dec Nat.eq_dec) (shapes ws) (shapes (get_weights m))
  then ok (mk_model (Np.zip_with assign (variables m) ws) (optimizer_slots m))
  else throw ValueError.

End Keras.

(** ** Experience tuples *)

Module Experience.

Record t : Type := mk {
  state : Np.vec;
  action : Np.vec;
  reward : Q;
  next_state : Np.vec;
  done : bool
}.

End Experience.

(** ** The replay memory *)

Module ReplayBuffer.

Record t : Type := mk {
  buffer_size : nat;
  batch_size : nat;
  memory : list Experience.t
}.

(** Modelled from the spec: [replay_buffer.py] is not part of the sources.
    A new buffer of capacity [buffer_size] is empty. *)
Definition init (buffer_size batch_size : nat) : t := mk buffer_size batch_size [].

(** Modelled from the spec: [ReplayBuffer.__len__], the current number of
    stored transitions. *)
Definition len (b : t) : nat := length (memory b).

(** Modelled from the spec: [ReplayBuffer.add] appends a transition; if the
    length equals the capacity, the transition at the head is evicted.  It
    always succeeds. *)
Definition add (b : t) (e : Experience.t) : t :=
  if Nat.eqb (len b) (buffer_size b)
  then mk (buffer_size b) (batch_size b) (tl (memory b) ++ [e])
  else mk (buffer_size b) (batch_size b) (memory b ++ [e]).

(** Modelled from the spec: [ReplayBuffer.sample] fails with
    [InsufficientDataError] when the length is at most [batch_size]; otherwise
    it selects [batch_size] stored transitions, the [k]-th one at the index
    the random source [rnd] draws for [k]. *)
Definition sample (b : t) (rnd : nat -> nat) : result (list (option Experience.t)) :=
  if Nat.leb (len b) (batch_size b) then throw InsufficientDataError
  else ok (map (fun k => nth_error (memory b) (rnd k mod len b))
               (seq 0 (batch_size b))).

End ReplayBuffer.

(** ** The exploration noise *)

Module OUNoise.

Record t : Type := mk {
  mu : Np.vec;
  theta : Q;
  sigma : Q;
  x : Np.vec
}.

(** Modelled from the spec: [ounoise.py] is not part of the sources.  The
    scalar mean is broadcast to [size] components, and the process starts at
    its mean. *)
Definition init (size : nat) (mu theta sigma : Q) : t :=
  mk (repeat mu size) theta sigma (repeat mu size).

(** Modelled from the spec: [OUNoise.reset] sets the state to the mean. *)
Definition reset (n : t) : t := mk (mu n) (theta n) (sigma n) (mu n).

(** Modelled from the spec: [OUNoise.sample] moves the state by
    [dx = theta * (mu - x) + sigma * normal] and returns the new state;
    [normal] is the standard-normal draw of this call. *)
Definition sample (n : t) (normal : Np.vec) : result (Np.vec * t) :=
  rbind (Np.sub (mu n) (x n)) (fun d =>
  rbind (Np.add (Np.smul (theta n) d) (Np.smul (sigma n) normal)) (fun dx =>
  rbind (Np.add (x n) dx) (fun x' =>
  ok (x', mk (mu n) (theta n) (sigma n) x')))).

End OUNoise.

(** ** The environment's declared spaces *)

Module Task.

Record space : Type := mk_space {
  space_shape : list nat;
  low : Np.vec;
  high : Np.vec
}.

Record t : Type := mk {
  observation_space : space;
  action_space : space
}.

(** [space.shape[0]] *)
Definition shape0 (s : space) : result nat :=
  match space_shape s with
  | [] => throw IndexError
  | n :: _ => ok n
  end.

End Task.

(** ** The agent *)

Module DDPG.

(** The four networks an agent owns. *)
Inductive net : Type := ActorLocal | ActorTarget | CriticLocal | CriticTarget.

(** The calls an agent makes on its collaborators and on itself, recorded in
    the order they happen. *)
Inductive event : Type :=
| MemoryAdd (e : Experience.t)
| MemorySample (batch : list (option Experience.t))
| Learn (experiences : list (option Experience.t))
| TrainOnBatch (states actions : list Np.vec) (Q_targets : list Q)
| GetActionGradients (critic_weights : list Np.ndarray)
                     (states actions : list Np.vec)
| TrainFn (states action_gradients : list Np.vec)
| SoftUpdate (local target : net) (tau : Q)
| SetWeights (target : net) (weights : list Np.ndarray).

Record agent : Type := mk {
  state_size : nat;
  state_low : Np.vec;
  state_high : Np.vec;
  state_range : Np.vec;
  action_size : nat;
  action_low : Np.vec;
  action_high : Np.vec;
  action_range : Np.vec;
  actor_local : Keras.model;
  actor_target : Keras.model;
  critic_local : Keras.model;
  critic_target : Keras.model;
  noise : OUNoise.t;
  buffer_size : nat;
  batch_size : nat;
  memory : ReplayBuffer.t;
  gamma : Q;
  tau_actor : Q;
  tau_critic : Q;
  trace : list event
}.

Definition get_net (n : net) (s : agent) : Keras.model :=
  match n with
  | ActorLocal => actor_local s
  | ActorTarget => actor_target s
  | CriticLocal => critic_local s
  | CriticTarget => critic_target s
  end.

Definition set_net (n : net) (m : Keras.model) (s : agent) : agent :=
  mk (state_size s) (state_low s) (state_high s) (state_range s)
     (action_size s) (action_low s) (action_high s) (action_range s)
     (match n with ActorLocal => m | _ => actor_local s end)
     (match n with ActorTarget => m | _ => actor_target s end)
     (match n with CriticLocal => m | _ => critic_local s end)
     (match n with CriticTarget => m | _ => critic_target s end)
     (noise s) (buffer_size s) (batch_size s) (memory s)
     (gamma s) (tau_actor s) (tau_critic s) (trace s).

Definition set_noise (n : OUNoise.t) (s : agent) : agent :=
  mk (state_size s) (state_low s) (state_high s) (state_range s)
     (action_size s) (action_low s) (action_high s) (action_range s)
     (actor_local s) (actor_target s) (critic_local s) (critic_target s)
     n (buffer_size s) (batch_size s) (memory s)
     (gamma s) (tau_actor s) (tau_critic s) (trace s).

Definition set_memory (b : ReplayBuffer.t) (s : agent) : agent :=
  mk (state_size s) (state_low s) (state_high s) (state_range s)
     (action_size s) (action_low s) (action_high s) (action_range s)
     (actor_local s) (actor_target s) (critic_local s) (critic_target s)
     (noise s) (buffer_size s) (batch_size s) b
     (gamma s) (tau_actor s) (tau_critic s) (trace s).

Definition record (ev : event) (s : agent) : agent :=
  mk (state_size s) (state_low s) (state_high s) (state_range s)
     (action_size s) (action_low s) (action_high s) (action_range s)
     (actor_local s) (actor_target s) (critic_local s) (critic_target s)
     (noise s) (buffer_size s) (batch_size s) (memory s)
     (gamma s) (tau_actor s) (tau_critic s) (trace s ++ [ev]).

(** *** Methods run in a state-and-exception monad: a method takes the agent
    as it is, and leaves a result or a raised exception together with the
    agent as it has become.  A raised exception leaves in place what was
    written before it. *)

Definition M (A : Type) : Type := agent -> result A * agent.

Definition ret {A} (a : A) : M A := fun s => (ok a, s).

Definition bind {A B} (m : M A) (k : A -> M B) : M B :=
  fun s => match m s with
           | (inl e, s') => (inl e, s')
           | (inr a, s') => k a s'
           end.

Definition lift {A} (r : result A) : M A := fun s => (r, s).
Definition gets {A} (f : agent -> A) : M A := fun s => (ok (f s), s).
Definition modify (f : agent -> agent) : M unit := fun s => (ok tt, f s).
Definition emit (ev : event) : M unit := modify (record ev).
Definition raise {A} (e : exn) : M A := lift (throw e).

Declare Scope ddpg_scope.
Delimit Scope ddpg_scope with ddpg.
Notation "x <- m ;; k" := (bind m (fun x => k))
  (at level 61, m at next level, right associativity) : ddpg_scope.
Notation "m ;; k" := (bind m (fun _ => k))
  (at level 61, right associativity) : ddpg_scope.
Open Scope ddpg_scope.

(** [assert c] *)
Definition assert (c : bool) : M unit :=
  if c then ret tt else raise AssertionError.

(** [np.array(dones).astype(np.uint8)] and the [uint8] subtraction of
    [1 - dones], which wraps around modulo 256. *)
Definition uint8_of_bool (b : bool) : Z := if b then 1%Z else 0%Z.
Definition uint8_sub (a b : Z) : Z := ((a - b) mod 256)%Z.

(** [np.array(rows).astype(np.float32).reshape(-1, k)]: the rows must agree
    in length to form a numeric array. *)
Definition array_reshape (k : nat) (rows : list Np.vec) : result (list Np.vec) :=
  match rows with
  | [] => Np.reshape_rows k []
  | r :: rest =>
      if forallb (fun r' => Nat.eqb (length r') (length r)) rest
      then Np.reshape_rows k (concat rows)
      else throw ValueError
  end.

Fixpoint not_none {A} (xs : list (option A)) : list A :=
  match xs with
  | [] => []
  | Some a :: xs' => a :: not_none xs'
  | None :: xs' => not_none xs'
  end.

(** [a[0]] *)
Definition first {A} (xs : list A) : result A :=
  match xs with
  | [] => throw IndexError
  | a :: _ => ok a
  end.

(** *** The networks and the libraries

    [actor.py] and [critic.py] are not part of the sources.  What the agent
    relies on is taken as given: the function a network of given weights
    computes on one input row, what one training call makes of a model, and
    the version of numpy the agent runs on. *)

Record networks : Type := mk_networks {
  (** The actor's forward pass on one state. *)
  actor_forward : list Np.ndarray -> Np.vec -> Np.vec;
  (** The critic's forward pass on one state and action. *)
  critic_forward : list Np.ndarray -> Np.vec -> Np.vec -> Q;
  (** [critic.model.train_on_batch(x=[states, actions], y=Q_targets)] *)
  critic_train_on_batch :
    Keras.model -> list Np.vec -> list Np.vec -> list Q -> Keras.model;
  (** [critic.get_action_gradients([states, actions, 0])]: per sample, the
      gradient of the critic's value with respect to the action. *)
  critic_get_action_gradients :
    list Np.ndarray -> list Np.vec -> list Np.vec -> list Np.vec;
  (** [actor.train_fn([states, action_gradients, 1])] *)
  actor_train_fn :
    Keras.model -> list Np.vec -> list Np.vec -> Keras.model;
  (** The installed numpy. *)
  numpy : Np.version
}.

Section Methods.

Variable nets : networks.

(** [model.predict] and [model.predict_on_batch] work row by row. *)
Definition actor_predict (m : Keras.model) (states : list Np.vec) : list Np.vec :=
  map (actor_forward nets (Keras.get_weights m)) states.

Definition critic_predict (m : Keras.model) (states actions : list Np.vec) : list Q :=
  Np.zip_with (critic_forward nets (Keras.get_weights m)) states actions.

(** *** [DDPG.__init__]

    The four networks are handed in as [Actor(...)] and [Critic(...)] have
    just built them. *)
Definition init (task : Task.t)
    (new_actor_local new_actor_target new_critic_local new_critic_target : Keras.model)
  : result agent :=
  rbind (Task.shape0 (Task.observation_space task)) (fun state_size =>
  let state_low := Task.low (Task.observation_space task) in
  let state_high := Task.high (Task.observation_space task) in
  rbind (Np.sub state_high state_low) (fun state_range =>
  rbind (Task.shape0 (Task.action_space task)) (fun action_size =>
  let action_low := Task.low (Task.action_space task) in
  let action_high := Task.high (Task.action_space task) in
  rbind (Np.sub action_high action_low) (fun action_range =>
  (* Initialize target model parameters with local model parameters *)
  rbind (Keras.set_weights new_critic_target
           (Keras.get_weights new_critic_local)) (fun critic_target =>
  rbind (Keras.set_weights new_actor_target
           (Keras.get_weights new_actor_local)) (fun actor_target =>
  let exploration_mu := 0 in
  let exploration_theta := 0.05 in
  let exploration_sigma := 0.25 in
  let noise := OUNoise.init action_size exploration_mu
                            exploration_theta exploration_sigma in
  let buffer_size := 10000%nat in
  let batch_size := 128%nat in
  let memory := ReplayBuffer.init buffer_size batch_size in
  ok (mk state_size state_low state_high state_range
         action_size action_low action_high action_range
         new_actor_local actor_target new_critic_local critic_target
         noise buffer_size batch_size memory
         0.999 0.1 0.5 []))))))). 

(** *** [DDPG.reset]: the noise is reset (the call on the environment is
    outside the agent). *)
Definition reset : M unit :=
  n <- gets noise ;;
  modify (set_noise (OUNoise.reset n)).

(** *** [DDPG.preprocess_state] *)
Definition preprocess_state (state : Np.vec) : M Np.vec :=
  low <- gets state_low ;;
  range <- gets state_range ;;
  d <- lift (Np.sub state low) ;;
  q <- lift (Np.div d range) ;;
  ret (Np.subs (Np.muls q 2) 1).

(** *** [DDPG.soft_update] *)
Definition soft_update (local_model target_model : net) (tau : Q) : M unit :=
  emit (SoftUpdate local_model target_model tau) ;;
  local_weights <-
    bind (gets (fun s => Keras.get_weights (get_net local_model s)))
         (fun ws => lift (Np.array (numpy nets) ws)) ;;
  target_weights <-
    bind (gets (fun s => Keras.get_weights (get_net target_model s)))
         (fun ws => lift (Np.array (numpy nets) ws)) ;;
  assert (Nat.eqb (Np.len local_weights) (Np.len target_weights)) ;;
  new_weights <- lift (Np.wadd (Np.wscale tau local_weights)
                               (Np.wscale (1 - tau) target_weights)) ;;
  target <- gets (get_net target_model) ;;
  target' <- lift (Keras.set_weights target (Np.rows new_weights)) ;;
  emit (SetWeights target_model (Np.rows new_weights)) ;;
  modify (set_net target_model target').

(** The TD targets of [learn]:
    [rewards + self.gamma * Q_targets_next * (1 - dones)]. *)
Definition td_targets (gamma : Q) (rewards Q_targets_next : list Q) (dones : list Z)
  : result (list Q) :=
  let not_dones := map (fun d => inject_Z (uint8_sub 1 d)) dones in
  rbind (Np.broadcast1 Qmult (Np.smul gamma Q_targets_next) not_dones) (fun boot =>
  Np.add rewards boot).

(** *** [DDPG.learn] *)
Definition learn (experiences : list (option Experience.t)) : M unit :=
  emit (Learn experiences) ;;
  let experiences := not_none experiences in
  states <- lift (Np.vstack (map Experience.state experiences)) ;;
  k <- gets action_size ;;
  actions <- lift (array_reshape k (map Experience.action experiences)) ;;
  let rewards := map Experience.reward experiences in
  let dones := map (fun e => uint8_of_bool (Experience.done e)) experiences in
  next_states <- lift (Np.vstack (map Experience.next_state experiences)) ;;
  (* Get predicted next-state actions and Q values from target models *)
  actions_next <- gets (fun s => actor_predict (actor_target s) next_states) ;;
  Q_targets_next <- gets (fun s => critic_predict (critic_target s)
                                      next_states actions_next) ;;
  (* Compute Q targets for current states and train critic model (local) *)
  g <- gets gamma ;;
  Q_targets <- lift (td_targets g rewards Q_targets_next dones) ;;
  emit (TrainOnBatch states actions Q_targets) ;;
  modify (fun s => set_net CriticLocal
            (critic_train_on_batch nets (critic_local s) states actions Q_targets) s) ;;
  (* Train actor model (local) *)
  cw <- gets (fun s => Keras.get_weights (critic_local s)) ;;
  emit (GetActionGradients cw states actions) ;;
  action_gradients <- lift (Np.reshape_rows k
     (concat (critic_get_action_gradients nets cw states actions))) ;;
  emit (TrainFn states action_gradients) ;;
  modify (fun s => set_net ActorLocal
            (actor_train_fn nets (actor_local s) states action_gradients) s) ;;
  (* Soft-update target models *)
  tc <- gets tau_critic ;;
  soft_update CriticLocal CriticTarget tc ;;
  ta <- gets tau_actor ;;
  soft_update ActorLocal ActorTarget ta.

(** *** [DDPG.step]; [rnd] is the random source [memory.sample] draws
    from. *)
Definition step (state action : Np.vec) (reward : Q) (next_state : Np.vec)
    (done : bool) (rnd : nat -> nat) : M unit :=
  state <- preprocess_state state ;;
  next_state <- preprocess_state next_state ;;
  (* Save experience / reward *)
  let e := Experience.mk state action reward next_state done in
  emit (MemoryAdd e) ;;
  modify (fun s => set_memory (ReplayBuffer.add (memory s) e) s) ;;
  (* Learn, if enough samples are available in memory *)
  n <- gets (fun s => ReplayBuffer.len (memory s)) ;;
  b <- gets batch_size ;;
  if Nat.ltb b n then
    mem <- gets memory ;;
    experiences <- lift (ReplayBuffer.sample mem rnd) ;;
    emit (MemorySample experiences) ;;
    learn experiences
  else ret tt.

(** *** [DDPG.act]; [normal] is the standard-normal draw the noise process
    consumes in this call. *)
Definition act (state : Np.vec) (normal : Np.vec) : M (Np.vec * Np.vec) :=
  state <- preprocess_state state ;;
  k <- gets state_size ;;
  state <- lift (Np.reshape_rows k state) ;;
  pure_action <- bind (gets (fun s => actor_predict (actor_local s) state))
                      (fun rows => lift (first rows)) ;;
  n <- gets noise ;;
  sample <- lift (OUNoise.sample n normal) ;;
  modify (set_noise (snd sample)) ;;
  low <- gets action_low ;;
  high <- gets action_high ;;
  noisy <- lift (rbind (Np.add (Np.muls pure_action 0.2) (fst sample))
                       (fun a => Np.clip a low high)) ;;
  ret (noisy, pure_action).

End Methods.

(** The map the normalisation is meant to be, in the spec's words:
    [2*(state - state_low)/(state_high - state_low) - 1], elementwise. *)
Definition preprocess_state_spec (state_low state_high state : Np.vec) : Np.vec :=
  Np.zip_with (fun x lh => 2 * (x - fst lh) / (snd lh - fst lh) - 1)
              state (combine state_low state_high).

(** The TD target of one transition, in the spec's words:
    [reward + gamma * Q_target(next_state, actor_target(next_state)) * (1 - done)]. *)
Definition td_target_spec (nets : networks) (s : agent) (e : Experience.t) : Q :=
  let next_state := Experience.next_state e in
  let a_next := actor_forward nets (Keras.get_weights (actor_target s)) next_state in
  let q_next := critic_forward nets (Keras.get_weights (critic_target s))
                               next_state a_next in
  Experience.reward e + gamma s * q_next * (1 - (if Experience.done e then 1 else 0)).

(** The new weights [soft_update] computes from the two weight lists, up to
    the call of [set_weights]. *)
Definition new_weights (v : Np.version) (tau : Q) (lw tw : list Np.ndarray)
  : result (list Np.ndarray) :=
  rbind (Np.array v lw) (fun local_weights =>
  rbind (Np.array v tw) (fun target_weights =>
  if Nat.eqb (Np.len local_weights) (Np.len target_weights)
  then rbind (Np.wadd (Np.wscale tau local_weights)
                      (Np.wscale (1 - tau) target_weights))
             (fun a => ok (Np.rows a))
  else throw AssertionError)).

(** [np.array] builds an array from the list [ws]. *)
Definition buildable (v : Np.version) (ws : list Np.ndarray) : Prop :=
  exists a, Np.array v ws = inr a.

(** [np.array] builds from the list [ws] an array whose entries are the
    tensors of [ws], one by one. *)
Definition entrywise (v : Np.version) (ws : list Np.ndarray) : Prop :=
  exists a, Np.array v ws = inr a /\ Np.rows a = ws.

(** The soft update of one weight list, in the spec's words:
    [target_param := tau * local_param + (1 - tau) * target_param], parameter
    by parameter. *)
Definition soft_update_spec (tau : Q) (local target : list Np.ndarray)
  : list Np.ndarray :=
  Np.zip_with
    (fun l t => Np.mk_ndarray (Np.shape t)
                  (Np.zip_with (fun x y => tau * x + (1 - tau) * y)
                               (Np.data l) (Np.data t)))
    local target.

(** Two weight lists hold the same parameters: the same shapes, and equal
    numbers in every position. *)
Definition same_weights (ws ws' : list Np.ndarray) : Prop :=
  Forall2 (fun a b => Np.shape a = Np.shape b /\
                      Forall2 Qeq (Np.data a) (Np.data b)) ws ws'.

(** The value [preprocess_state] computes, as a function of the bounds. *)
Definition normalize (low range state : Np.vec) : result Np.vec :=
  rbind (Np.sub state low) (fun d =>
  rbind (Np.div d range) (fun q =>
  ok (Np.subs (Np.muls q 2) 1))).

(** What [preprocess_state] returns on an input of the right length. *)
Definition normalized (low range state : Np.vec) : Np.vec :=
  Np.subs (Np.muls (Np.zip_with Qdiv (Np.zip_with Qminus state low) range) 2) 1.

(** The agent once the transition [e] is stored. *)
Definition stored (e : Experience.t) (s : agent) : agent :=
  set_memory (ReplayBuffer.add (memory s) e) (record (MemoryAdd e) s).

(** The parameter shapes of a network of the agent. *)
Definition arch (s : agent) (n : net) : list (list nat) :=
  Keras.shapes (Keras.get_weights (get_net n s)).

(** What [soft_update] requires of the agent: each local network and its
    target have as many weight tensors, of the same shapes. *)
Definition matched (s : agent) : Prop :=
  arch s CriticLocal = arch s CriticTarget /\
  arch s ActorLocal = arch s ActorTarget.

(** The calls a training loop makes on an agent, with the random draws they
    consume. *)
Inductive call : Type :=
| CallReset
| CallAct (state normal : Np.vec)
| CallStep (state action : Np.vec) (reward : Q) (next_state : Np.vec)
       (done : bool) (rnd : nat -> nat).

(** The agent after a call, whether the call returned or raised. *)
Definition run_call (nets : networks) (c : call) (s : agent) : agent :=
  match c with
  | CallReset => snd (reset s)
  | CallAct state normal => snd (act nets state normal s)
  | CallStep state action reward next_state done rnd =>
      snd (step nets state action reward next_state done rnd s)
  end.

Definition run_calls (nets : networks) (cs : list call) (s : agent) : agent :=
  fold_left (fun s c => run_call nets c s) cs s.

(** The place of an event in a call of [learn], in the order the spec
    gives: critic training, action gradient, actor training, soft update of
    the critic target, soft update of the actor target. *)
Definition phase (ev : event) : nat :=
  match ev with
  | Learn _ => 0
  | TrainOnBatch _ _ _ => 1
  | GetActionGradients _ _ _ => 2
  | TrainFn _ _ => 3
  | SoftUpdate _ CriticTarget _ => 4
  | SetWeights CriticTarget _ => 5
  | SoftUpdate _ ActorTarget _ => 6
  | SetWeights ActorTarget _ => 7
  | _ => 8
  end.

(** The targets [td_targets] computes for the transitions [es], when the
    target actor maps a state by [af] and the target critic a state and an
    action by [cf]. *)
Definition bootstrapped (g : Q) (af : Np.vec -> Np.vec)
    (cf : Np.vec -> Np.vec -> Q) (es : list Experience.t) : list Q :=
  Np.zip_with Qplus (map Experience.reward es)
    (Np.zip_with Qmult
       (Np.smul g (Np.zip_with cf (map Experience.next_state es)
                               (map af (map Experience.next_state es))))
       (map (fun d => inject_Z (uint8_sub 1 d))
            (map (fun e => uint8_of_bool (Experience.done e)) es))).

(** The events a soft update records. *)
Definition is_sync (ev : event) : bool :=
  match ev with
  | SoftUpdate _ _ _ | SetWeights _ _ => true
  | _ => false
  end.

(** [v] lies within the bounds [lo] and [hi], component by component; bounds
    of length 1 are stretched along [v], as numpy stretches them. *)
Definition within (lo hi v : Np.vec) : Prop :=
  match lo, hi with
  | [l], [h] => Forall (fun c => l <= c /\ c <= h) v
  | _, _ => Forall2 Qle lo v /\ Forall2 Qle v hi
  end.

(** *** A concrete agent: the continuous mountain car *)

Module Example.

(** Position in [-1.2, 0.6], velocity in [-0.07, 0.07]; one force in
    [-1, 1]. *)
Definition mountain_car : Task.t :=
  Task.mk (Task.mk_space [2%nat] [-1.2; -0.07] [0.6; 0.07])
          (Task.mk_space [1%nat] [-1] [1]).

Definition dot (u v : Np.vec) : Q :=
  fold_right Qplus 0 (Np.zip_with Qmult u v).

Definition kernel (ws : list Np.ndarray) : Np.vec :=
  match ws with
  | [] => []
  | w :: _ => Np.data w
  end.

(** Every weight moved by [c]; shapes and names stay. *)
Definition nudge (c : Q) (m : Keras.model) : Keras.model :=
  Keras.mk_model
    (map (fun v => Keras.mk_variable (Keras.var_name v)
                     (Np.mk_ndarray (Np.shape (Keras.var_value v))
                        (map (fun a => Qred (a + c)) (Np.data (Keras.var_value v)))))
         (Keras.variables m))
    (Keras.optimizer_slots m).

(** One linear layer each; a training call moves the weights by a step that
    depends on its inputs. *)
Definition linear_on (v : Np.version) : networks :=
  mk_networks
    (fun ws state => [dot (kernel ws) state])
    (fun ws state action => dot (kernel ws) (state ++ action))
    (fun m states actions y => nudge (fold_right Qplus 0 y / 100) m)
    (fun ws states actions => map (fun _ => firstn 1 (skipn 2 (kernel ws))) states)
    (fun m states grads => nudge (fold_right Qplus 0 (concat grads) / 100) m)
    v.

(** The same on numpy before 1.24, where a kernel and a bias of different
    shapes make an object array. *)
Definition linear : networks := linear_on Np.Legacy.

Definition dense (name : string) (shape : list nat) (data : list Q) : Keras.variable :=
  Keras.mk_variable name (Np.mk_ndarray shape data).

Definition actor_a : Keras.model :=
  Keras.mk_model [dense "actor/kernel" [2%nat; 1%nat] [0.5; -0.25];
                  dense "actor/bias" [1%nat] [0]] [].
Definition actor_b : Keras.model :=
  Keras.mk_model [dense "actor/kernel" [2%nat; 1%nat] [0.75; 0.125];
                  dense "actor/bias" [1%nat] [0.1]] [].
Definition critic_a : Keras.model :=
  Keras.mk_model [dense "critic/kernel" [3%nat; 1%nat] [1; 2; -1];
                  dense "critic/bias" [1%nat] [0]] [].
Definition critic_b : Keras.model :=
  Keras.mk_model [dense "critic/kernel" [3%nat; 1%nat] [0; 0.3; 5];
                  dense "critic/bias" [1%nat] [2]] [].

(** The agent [DDPG(mountain_car)] with these four networks. *)
Definition agent0 : agent :=
  mk 2 [-1.2; -0.07] [0.6; 0.07]
     [0.6 - -1.2; 0.07 - -0.07]
     1 [-1] [1] [1 - -1]
     actor_a
     (Keras.mk_model (Keras.variables actor_a) [])
     critic_a
     (Keras.mk_model (Keras.variables critic_a) [])
     (OUNoise.init 1 0 0.05 0.25)
     10000 128 (ReplayBuffer.init 10000 128)
     0.999 0.1 0.5 [].

(** The same agent after its local critic has moved away from the target. *)
Definition agent1 : agent := set_net CriticLocal critic_b agent0.

(** A target actor whose variables carry other names than the local
    actor's. *)
Definition actor_renamed : Keras.model :=
  Keras.mk_model [dense "policy/w" [2%nat; 1%nat] [0.75; 0.125];
                  dense "policy/b" [1%nat] [0.1]] [].

Definition agent_renamed : agent := set_net ActorTarget actor_renamed agent0.

(** A local and a target actor whose single tensors differ in shape: one
    number against three. *)
Definition actor_narrow : Keras.model :=
  Keras.mk_model [dense "actor/bias" [1%nat] [2]] [].
Definition actor_wide : Keras.model :=
  Keras.mk_model [dense "actor/bias" [3%nat] [1; 2; 3]] [].

Definition agent_reshaped : agent :=
  set_net ActorTarget actor_wide (set_net ActorLocal actor_narrow agent0).

(** A target critic with one tensor less than the local critic. *)
Definition critic_short : Keras.model :=
  Keras.mk_model [dense "critic/kernel" [3%nat; 1%nat] [0; 0.3; 5]] [].

Definition agent_short : agent := set_net CriticTarget critic_short agent0.

(** A batch of two transitions, the second one terminal, around an empty
    slot. *)
Definition e1 : Experience.t := Experience.mk [0; 1] [0.5] (-1) [0.1; 0.9] false.
Definition e2 : Experience.t := Experience.mk [0.1; 0.9] [1] 100 [0.2; 0.8] true.
Definition batch : list (option Experience.t) := [Some e1; None; Some e2].

(** A small replay memory: batches of two, three transitions stored. *)
Definition small_memory : ReplayBuffer.t := ReplayBuffer.mk 5 2 [e1; e2; e1].

(** The agent with batches of two and two transitions already stored: the
    next one triggers learning. *)
Definition agent_small : agent :=
  mk 2 [-1.2; -0.07] [0.6; 0.07] [0.6 - -1.2; 0.07 - -0.07]
     1 [-1] [1] [1 - -1]
     actor_a actor_b critic_a critic_b
     (OUNoise.init 1 0 0.05 0.25)
     5 2 (ReplayBuffer.mk 5 2 [e1; e2])
     0.999 0.1 0.5 [].

End Example.

(** ** Further notions *)

(** Everything an agent holds besides its four networks and its trace: the
    spaces' bounds and sizes, the noise process, the replay memory and the
    hyperparameters. *)
Definition rest_of (s : agent) :=
  (state_size s, state_low s, state_high s, state_range s,
   (action_size s, action_low s, action_high s, action_range s),
   (noise s, buffer_size s, batch_size s, memory s),
   (gamma s, tau_actor s, tau_critic s)).

(** The four networks of an agent. *)
Definition nets_of (s : agent) :=
  (actor_local s, actor_target s, critic_local s, critic_target s).

(** A vector within [-1, 1] in every component. *)
Definition unit_box (v : Np.vec) : Prop :=
  Forall (fun c => -1 <= c /\ c <= 1) v.

(** Every stored transition has its two states within [-1, 1]. *)
Definition memory_normalized (b : ReplayBuffer.t) : Prop :=
  Forall (fun e => unit_box (Experience.state e) /\
                   unit_box (Experience.next_state e))
         (ReplayBuffer.memory b).

(** A batch [learn] can stack: some transition, states of one length, next
    states of one length, actions of [k] components each. *)
Definition stackable (k : nat) (es : list Experience.t) : Prop :=
  es <> [] /\ (0 < k)%nat /\
  (exists n, Forall (fun e => length (Experience.state e) = n) es) /\
  (exists n, Forall (fun e => length (Experience.next_state e) = n) es) /\
  Forall (fun e => length (Experience.action e) = k) es.


(** A rank-1 array numpy cannot pair with one of length [n]: neither of the
    same length nor of length 1, against a length other than 1. *)
Definition unpairable (n : nat) (v : Np.vec) : Prop :=
  length v <> n /\ length v <> 1%nat /\ n <> 1%nat.

(** Everything an agent holds besides its noise process. *)
Definition except_noise (s : agent) :=
  (nets_of s, trace s, memory s,
   (state_size s, state_low s, state_high s, state_range s),
   (action_size s, action_low s, action_high s, action_range s),
   (buffer_size s, batch_size s, gamma s, tau_actor s, tau_critic s)).

(** The sizes [act] relies on: bounds of the declared sizes, a noise
    process of the action's size. *)
Definition act_ready (s : agent) : Prop :=
  (0 < state_size s)%nat /\
  length (state_low s) = state_size s /\
  length (state_range s) = state_size s /\
  length (action_low s) = action_size s /\
  length (action_high s) = action_size s /\
  length (OUNoise.mu (noise s)) = action_size s /\
  length (OUNoise.x (noise s)) = action_size s.

(** Two rank-1 arrays numpy can pair: of one length, or one of them of
    length 1. *)
Definition pairable {A B} (xs : list A) (ys : list B) : Prop :=
  length xs = length ys \/ length xs = 1%nat \/ length ys = 1%nat.

(** What [act_ready] looks at. *)
Definition sizes_of (s : agent) :=
  (state_size s, state_low s, state_range s,
   (action_size s, action_low s, action_high s), noise s).

(** A call whose noise draw has [k] components. *)
Definition draws (k : nat) (c : call) : Prop :=
  match c with
  | CallAct _ normal => length normal = k
  | _ => True
  end.

(** *** Further concrete agents and inputs *)

Module Cases.

(** Batches of two, two transitions stored, and a target critic one tensor
    short of the local critic: the next step learns, and the soft update of
    the critic fails. *)
Definition agent_small_short : agent :=
  set_net CriticTarget Example.critic_short Example.agent_small.

(** An agent with two actions on two state components.  Its actors are one
    layer of two units on two inputs: the kernel has shape (2, 2), the bias
    shape (2). *)
Definition actor_square_local : Keras.model :=
  Keras.mk_model [Example.dense "actor/kernel" [2%nat; 2%nat] [0.5; -0.25; 0.1; 0.3];
                  Example.dense "actor/bias" [2%nat] [0; 0.2]] [].
Definition actor_square_target : Keras.model :=
  Keras.mk_model [Example.dense "actor/kernel" [2%nat; 2%nat] [0.75; 0.125; 0; 0.3];
                  Example.dense "actor/bias" [2%nat] [0.1; 0.2]] [].
Definition critic_square : Keras.model :=
  Keras.mk_model [Example.dense "critic/kernel" [4%nat; 1%nat] [1; 2; -1; 0.5];
                  Example.dense "critic/bias" [1%nat] [0]] [].

Definition agent_square : agent :=
  mk 2 [-1.2; -0.07] [0.6; 0.07] [0.6 - -1.2; 0.07 - -0.07]
     2 [-1; -1] [1; 1] [1 - -1; 1 - -1]
     actor_square_local actor_square_target critic_square critic_square
     (OUNoise.init 2 0 0.05 0.25)
     10000 128 (ReplayBuffer.init 10000 128)
     0.999 0.1 0.5 [].

(** A short training loop on the mountain car. *)
Definition loop : list call :=
  [CallReset;
   CallAct [-0.3; 0.07] [8];
   CallStep [-0.3; 0.07] [1] (-1) [-0.2; 0.06] false (fun k => k);
   CallAct [-0.2; 0.06] [-3]].

End Cases.

(** ** Properties *)

Section Properties.

Variable nets : networks.

(** *** Elementwise arithmetic *)

Lemma broadcast1_same_length {A B C} (f : A -> B -> C) xs ys :
  length xs = length ys ->
  Np.broadcast1 f xs ys = ok (Np.zip_with f xs ys).
Proof.
  intros H. unfold Np.broadcast1. now rewrite H, Nat.eqb_refl.
Qed.

Lemma zip_with_length {A B C} (f : A -> B -> C) xs ys :
  length xs = length ys -> length (Np.zip_with f xs ys) = length xs.
Proof.
  revert ys. induction xs as [|x xs IH]; intros [|y ys] H; simpl in *;
    try discriminate; auto.
Qed.

Lemma Forall2_length_eq {A B} (R : A -> B -> Prop) xs ys :
  Forall2 R xs ys -> length xs = length ys.
Proof. induction 1; simpl; congruence. Qed.

(** One component of the normalisation, as the code computes it. *)
Lemma affine_component (lo hi x : Q) :
  lo < hi ->
  (x - lo) / (hi - lo) * 2 - 1 == 2 * (x - lo) / (hi - lo) - 1.
Proof. intros H. field. lra. Qed.

Lemma affine_component_bounds (lo hi x : Q) :
  lo < hi -> lo <= x -> x <= hi ->
  -1 <= (x - lo) / (hi - lo) * 2 - 1 /\ (x - lo) / (hi - lo) * 2 - 1 <= 1.
Proof.
  intros H Hl Hh.
  assert (Hp : 0 < hi - lo) by lra.
  assert (H0 : 0 <= (x - lo) / (hi - lo)).
  { apply Qle_shift_div_l; [exact Hp | lra]. }
  assert (H1 : (x - lo) / (hi - lo) <= 1).
  { apply Qle_shift_div_r; [exact Hp | lra]. }
  split; lra.
Qed.

Lemma affine_component_low (lo hi : Q) :
  lo < hi -> (lo - lo) / (hi - lo) * 2 - 1 == -1.
Proof. intros H. field. lra. Qed.

Lemma affine_component_high (lo hi : Q) :
  lo < hi -> (hi - lo) / (hi - lo) * 2 - 1 == 1.
Proof. intros H. field. lra. Qed.

Lemma preprocess_state_run (s : agent) (state : Np.vec) :
  length state = length (state_low s) ->
  length (state_range s) = length (state_low s) ->
  preprocess_state state s = (ok (normalized (state_low s) (state_range s) state), s).
Proof.
  intros Hs Hr. cbv [preprocess_state bind gets lift ret Np.sub Np.div ok].
  rewrite (broadcast1_same_length _ _ _ Hs). cbv [ok].
  rewrite broadcast1_same_length; [reflexivity|].
  rewrite zip_with_length; congruence.
Qed.

Lemma normalized_spec (low high state : Np.vec) :
  Forall2 Qlt low high -> length state = length low ->
  Forall2 Qeq (normalized low (Np.zip_with Qminus high low) state)
              (preprocess_state_spec low high state).
Proof.
  intros H. revert state.
  induction H as [|lo hi low high Hlt H IH]; intros [|x state] Hlen;
    simpl in *; try discriminate; constructor.
  - apply affine_component; assumption.
  - apply IH. congruence.
Qed.

Lemma normalized_bounds (low high state : Np.vec) :
  Forall2 Qlt low high -> Forall2 Qle low state -> Forall2 Qle state high ->
  Forall (fun y => -1 <= y /\ y <= 1)
         (normalized low (Np.zip_with Qminus high low) state).
Proof.
  intros H. revert state.
  induction H as [|lo hi low high Hlt H IH]; intros state Hl Hh;
    inversion Hl; subst; inversion Hh; subst; simpl; constructor.
  - apply affine_component_bounds; assumption.
  - apply IH; assumption.
Qed.

Lemma normalized_low (low high : Np.vec) :
  Forall2 Qlt low high ->
  Forall (fun y => y == -1) (normalized low (Np.zip_with Qminus high low) low).
Proof.
  induction 1; simpl; constructor; auto using affine_component_low.
Qed.

Lemma normalized_high (low high : Np.vec) :
  Forall2 Qlt low high ->
  Forall (fun y => y == 1) (normalized low (Np.zip_with Qminus high low) high).
Proof.
  induction 1; simpl; constructor; auto using affine_component_high.
Qed.

Lemma normalized_length (low range state : Np.vec) :
  length state = length low -> length range = length low ->
  length (normalized low range state) = length state.
Proof.
  intros Hs Hr. unfold normalized, Np.subs, Np.muls.
  rewrite !length_map, !zip_with_length; auto.
  rewrite zip_with_length; congruence.
Qed.

Lemma range_of_bounds (low high range : Np.vec) :
  Forall2 Qlt low high -> Np.sub high low = ok range ->
  range = Np.zip_with Qminus high low.
Proof.
  intros H Hr. apply Forall2_length_eq in H. unfold Np.sub in Hr.
  rewrite broadcast1_same_length in Hr by congruence.
  unfold ok in Hr. congruence.
Qed.

(** C3.  [preprocess_state] computes, component by component, the affine
    map [2*(state - state_low)/(state_high - state_low) - 1]; on a state
    within the bounds every component of the result lies in [-1, 1]; the
    lower bound is mapped to -1 and the upper bound to 1 in every
    component.  The agent is left as it was. *)
Theorem preprocess_state_affine (s : agent) (state : Np.vec) :
  Np.sub (state_high s) (state_low s) = ok (state_range s) ->
  Forall2 Qlt (state_low s) (state_high s) ->
  length state = length (state_low s) ->
  exists y y_low y_high,
    preprocess_state state s = (ok y, s) /\
    Forall2 Qeq y (preprocess_state_spec (state_low s) (state_high s) state) /\
    (Forall2 Qle (state_low s) state -> Forall2 Qle state (state_high s) ->
     Forall (fun c => -1 <= c /\ c <= 1) y) /\
    preprocess_state (state_low s) s = (ok y_low, s) /\
    length y_low = length (state_low s) /\
    Forall (fun c => c == -1) y_low /\
    preprocess_state (state_high s) s = (ok y_high, s) /\
    length y_high = length (state_high s) /\
    Forall (fun c => c == 1) y_high.
Proof.
  intros Hr Hlt Hlen.
  pose proof (Forall2_length_eq _ _ _ Hlt) as Hlh.
  pose proof (range_of_bounds _ _ _ Hlt Hr) as Hrange.
  assert (Hrl : length (state_range s) = length (state_low s)).
  { rewrite Hrange, zip_with_length; congruence. }
  exists (normalized (state_low s) (state_range s) state),
         (normalized (state_low s) (state_range s) (state_low s)),
         (normalized (state_low s) (state_range s) (state_high s)).
  rewrite !preprocess_state_run by congruence.
  rewrite !normalized_length by congruence.
  rewrite Hrange.
  repeat split; auto using normalized_spec, normalized_bounds,
                           normalized_low, normalized_high.
Qed.

(** *** Running monadic code *)

Lemma bind_ok_inv {A B} (m : M A) (k : A -> M B) s b s' :
  bind m k s = (inr b, s') ->
  exists a s1, m s = (inr a, s1) /\ k a s1 = (inr b, s').
Proof.
  unfold bind. destruct (m s) as [[e|a] s1]; intros H.
  - discriminate.
  - eauto.
Qed.

Lemma gets_inv {A} (f : agent -> A) s a s' :
  gets f s = (inr a, s') -> a = f s /\ s' = s.
Proof. unfold gets, ok. intros H. inversion H. auto. Qed.

Lemma lift_inv {A} (r : result A) s a s' :
  lift r s = (inr a, s') -> r = inr a /\ s' = s.
Proof. unfold lift. intros H. inversion H. auto. Qed.

Lemma modify_inv (f : agent -> agent) s u s' :
  modify f s = (inr u, s') -> s' = f s.
Proof. unfold modify, ok. intros H. inversion H. auto. Qed.

Lemma ret_inv {A} (a : A) s b s' :
  ret a s = (inr b, s') -> b = a /\ s' = s.
Proof. unfold ret, ok. intros H. inversion H. auto. Qed.

Lemma rbind_ok_inv {A B} (r : result A) (k : A -> result B) b :
  rbind r k = inr b -> exists a, r = inr a /\ k a = inr b.
Proof. destruct r; simpl; intros H; [discriminate | eauto]. Qed.

Lemma preprocess_state_frame (state : Np.vec) s r s' :
  preprocess_state state s = (r, s') -> s' = s.
Proof.
  cbv [preprocess_state bind gets lift ret ok].
  destruct (Np.sub state (state_low s)) as [e|d]; [intros H; inversion H; auto|].
  destruct (Np.div d (state_range s)); intros H; inversion H; auto.
Qed.

(** Splits a successful run of a sequence of monadic steps into the runs of
    its steps. *)
Ltac run_inv H :=
  unfold ok in H;
  repeat match type of H with
  | bind _ _ _ = (inr _, _) =>
      let a := fresh "a" in let s1 := fresh "s" in let H1 := fresh "R" in
      apply bind_ok_inv in H; destruct H as (a & s1 & H1 & H);
      first
        [ apply gets_inv in H1; destruct H1 as [-> ->]
        | apply modify_inv in H1; subst s1
        | apply lift_inv in H1; destruct H1 as [H1 ->]
        | apply preprocess_state_frame in H1 as ?; subst s1
        | run_inv H1
        | idtac ]
  | gets _ _ = (inr _, _) => apply gets_inv in H; destruct H as [-> ->]
  | lift _ _ = (inr _, _) => apply lift_inv in H; destruct H as [H ->]
  | ret _ _ = (inr _, _) => apply ret_inv in H; destruct H as [H ->]
  end.

(** *** Clipping *)

Lemma clip_component (a lo hi : Q) :
  lo <= hi -> lo <= Qmin hi (Qmax a lo) /\ Qmin hi (Qmax a lo) <= hi.
Proof.
  intros H. split.
  - apply Q.min_glb; [exact H | apply Q.le_max_r].
  - apply Q.le_min_l.
Qed.

Lemma broadcast1_scalar_r {A B C} (f : A -> B -> C) xs y :
  Np.broadcast1 f xs [y] = ok (map (fun x => f x y) xs).
Proof. destruct xs as [|x [|x' xs]]; reflexivity. Qed.

Lemma broadcast1_scalar_l {A B C} (f : A -> B -> C) x ys :
  Np.broadcast1 f [x] ys = ok (map (f x) ys).
Proof. destruct ys as [|y [|y' ys]]; reflexivity. Qed.

Lemma broadcast1_inv {A B C} (f : A -> B -> C) xs ys zs :
  Np.broadcast1 f xs ys = inr zs -> length ys <> 1%nat ->
  (length xs = length ys /\ zs = Np.zip_with f xs ys) \/
  (exists x, xs = [x] /\ zs = map (f x) ys).
Proof.
  unfold Np.broadcast1, ok, throw. intros H Hy.
  destruct (Nat.eqb (length xs) (length ys)) eqn:E.
  - apply Nat.eqb_eq in E. left. split; congruence.
  - destruct xs as [|x [|x' xs]].
    + destruct ys as [|y [|y' ys]]; simpl in *; congruence.
    + right. exists x. split; congruence.
    + destruct ys as [|y [|y' ys]]; simpl in *; congruence.
Qed.

Lemma maximum_above (a lo m : Np.vec) :
  Np.maximum a lo = inr m -> length lo <> 1%nat -> Forall2 Qle lo m.
Proof.
  unfold Np.maximum. intros H Hlo.
  destruct (broadcast1_inv _ _ _ _ H Hlo) as [[Hlen ->] | (x & -> & ->)].
  - clear H Hlo. revert a Hlen.
    induction lo as [|l lo IH]; intros [|x a] Hlen; simpl in *;
      try discriminate; constructor.
    + apply Q.le_max_r.
    + apply IH. congruence.
  - clear. induction lo; simpl; constructor; auto. apply Q.le_max_r.
Qed.

Lemma minimum_clipped (hi lo m : Np.vec) :
  Forall2 Qle lo hi -> Forall2 Qle lo m ->
  Forall2 Qle lo (Np.zip_with Qmin hi m) /\ Forall2 Qle (Np.zip_with Qmin hi m) hi.
Proof.
  intros H. revert m.
  induction H as [|l h lo hi Hlh H IH]; intros m Hm; inversion Hm; subst; simpl.
  - split; constructor.
  - destruct (IH _ H4) as [IH1 IH2]. split; constructor; auto.
    + apply Q.min_glb; assumption.
    + apply Q.le_min_l.
Qed.

Lemma clip_within (a lo hi r : Np.vec) :
  Forall2 Qle lo hi -> Np.clip a lo hi = inr r -> within lo hi r.
Proof.
  intros Hb H. unfold Np.clip in H.
  apply rbind_ok_inv in H. destruct H as (m & Hmax & Hmin).
  assert (Haligned : length lo <> 1%nat ->
            Forall2 Qle lo r /\ Forall2 Qle r hi).
  { intros Hlo. pose proof (maximum_above _ _ _ Hmax Hlo) as Hm.
    unfold Np.minimum in Hmin.
    rewrite broadcast1_same_length in Hmin.
    - unfold ok in Hmin. inversion Hmin; subst.
      apply minimum_clipped; assumption.
    - apply Forall2_length_eq in Hb, Hm. congruence. }
  destruct Hb as [|l h lo hi Hlh Hb].
  - simpl. apply Haligned. discriminate.
  - destruct Hb as [|l' h' lo hi Hlh' Hb].
    + simpl. clear Haligned.
      unfold Np.maximum in Hmax. rewrite broadcast1_scalar_r in Hmax.
      unfold Np.minimum in Hmin. rewrite broadcast1_scalar_l in Hmin.
      unfold ok in *. inversion Hmax; subst. inversion Hmin; subst.
      clear Hmax Hmin. induction a as [|x a IH]; simpl; constructor; auto.
      apply clip_component; assumption.
    + simpl. apply Haligned. simpl. discriminate.
Qed.

(** C4.  Whatever the state and whatever the draw of the noise process, the
    noisy action [act] returns is the clipped sum of the actor's output
    scaled by 0.2 and one noise sample, and lies within
    [action_low, action_high] component by component, provided
    [action_low <= action_high] holds component by component. *)
Theorem act_within_bounds (s s' : agent) (state normal noisy pure_action : Np.vec) :
  Forall2 Qle (action_low s) (action_high s) ->
  act nets state normal s = (ok (noisy, pure_action), s') ->
  (exists sample a,
      OUNoise.sample (noise s) normal = ok (sample, noise s') /\
      Np.add (Np.muls pure_action 0.2) sample = ok a /\
      Np.clip a (action_low s) (action_high s) = ok noisy) /\
  within (action_low s) (action_high s) noisy.
Proof.
  intros Hb H. unfold act in H. run_inv H.
  inversion H; subst a4 a1; clear H.
  destruct a2 as [sample n']. simpl in *.
  apply rbind_ok_inv in R3. destruct R3 as (a' & Hadd & Hclip).
  split.
  - exists sample, a'. auto.
  - eapply clip_within; eassumption.
Qed.

(** *** [soft_update], case by case *)

Lemma get_net_record n ev s : get_net n (record ev s) = get_net n s.
Proof. destruct n; reflexivity. Qed.

Lemma soft_update_unfold (l t : net) (tau : Q) (s : agent) :
  soft_update nets l t tau s =
  let s1 := record (SoftUpdate l t tau) s in
  match new_weights (numpy nets) tau (Keras.get_weights (get_net l s))
                    (Keras.get_weights (get_net t s)) with
  | inl e => (inl e, s1)
  | inr nw =>
      match Keras.set_weights (get_net t s) nw with
      | inl e => (inl e, s1)
      | inr m => (inr tt, set_net t m (record (SetWeights t nw) s1))
      end
  end.
Proof.
  cbv [soft_update new_weights bind gets lift emit modify ret assert raise
       throw ok rbind].
  rewrite !get_net_record.
  destruct (Np.array _ (Keras.get_weights (get_net l s))); [reflexivity|].
  destruct (Np.array _ (Keras.get_weights (get_net t s))); [reflexivity|].
  destruct (Nat.eqb _ _); [|reflexivity].
  destruct (Np.wadd _ _); [reflexivity|].
  rewrite !get_net_record.
  destruct (Keras.set_weights _ _); reflexivity.
Qed.

Lemma soft_update_trace (l t : net) (tau : Q) (s : agent) :
  exists new, trace (snd (soft_update nets l t tau s)) = trace s ++ new /\
              forallb is_sync new = true.
Proof.
  rewrite soft_update_unfold. cbv zeta.
  destruct (new_weights _ _ _ _) as [e|nw].
  - eexists [_]. split; reflexivity.
  - destruct (Keras.set_weights _ _).
    + eexists [_]. split; reflexivity.
    + exists [SoftUpdate l t tau; SetWeights t nw]. split; [|reflexivity].
      destruct t; simpl; rewrite <- app_assoc; reflexivity.
Qed.

(** *** [learn], case by case *)

Lemma learn_unfold (exps : list (option Experience.t)) (s : agent) :
  learn nets exps s =
  let s0 := record (Learn exps) s in
  let es := not_none exps in
  match Np.vstack (map Experience.state es) with
  | inl e => (inl e, s0)
  | inr states =>
  match array_reshape (action_size s) (map Experience.action es) with
  | inl e => (inl e, s0)
  | inr actions =>
  match Np.vstack (map Experience.next_state es) with
  | inl e => (inl e, s0)
  | inr next_states =>
  let actions_next := actor_predict nets (actor_target s) next_states in
  let Q_targets_next :=
    critic_predict nets (critic_target s) next_states actions_next in
  match td_targets (gamma s) (map Experience.reward es) Q_targets_next
          (map (fun e => uint8_of_bool (Experience.done e)) es) with
  | inl e => (inl e, s0)
  | inr Q_targets =>
  let critic' :=
    critic_train_on_batch nets (critic_local s) states actions Q_targets in
  let s1 := set_net CriticLocal critic'
              (record (TrainOnBatch states actions Q_targets) s0) in
  let s2 := record (GetActionGradients (Keras.get_weights critic')
                      states actions) s1 in
  match Np.reshape_rows (action_size s)
          (concat (critic_get_action_gradients nets
                     (Keras.get_weights critic') states actions)) with
  | inl e => (inl e, s2)
  | inr action_gradients =>
  let s3 := set_net ActorLocal
              (actor_train_fn nets (actor_local s) states action_gradients)
              (record (TrainFn states action_gradients) s2) in
  match soft_update nets CriticLocal CriticTarget (tau_critic s) s3 with
  | (inl e, s4) => (inl e, s4)
  | (inr _, s4) => soft_update nets ActorLocal ActorTarget (tau_actor s4) s4
  end end end end end end.
Proof.
  cbv [learn bind gets lift emit modify ret ok]. cbv zeta.
  destruct (Np.vstack (map Experience.state _)); [reflexivity|].
  cbn [action_size record].
  destruct (array_reshape _ _); [reflexivity|].
  destruct (Np.vstack (map Experience.next_state _)); [reflexivity|].
  cbn [actor_target critic_target gamma record].
  destruct (td_targets _ _ _ _); [reflexivity|].
  cbn [critic_local set_net record].
  destruct (Np.reshape_rows _ _); [reflexivity|].
  cbn [tau_critic set_net record actor_local].
  match goal with |- match ?a with _ => _ end = match ?b with _ => _ end =>
    change a with b; destruct b as [[e|u] s4] end; reflexivity.
Qed.

(** *** The TD targets *)

Lemma vstack_ok (rows r : list Np.vec) : Np.vstack rows = inr r -> r = rows.
Proof.
  unfold Np.vstack, ok, throw. destruct rows as [|x rows]; [discriminate|].
  destruct (forallb _ _); congruence.
Qed.

Lemma not_done_flag (b : bool) :
  inject_Z (uint8_sub 1 (uint8_of_bool b)) == 1 - (if b then 1 else 0).
Proof. destruct b; reflexivity. Qed.

Lemma td_targets_closed (g : Q) (af : Np.vec -> Np.vec)
    (cf : Np.vec -> Np.vec -> Q) (es : list Experience.t) :
  td_targets g (map Experience.reward es)
             (Np.zip_with cf (map Experience.next_state es)
                          (map af (map Experience.next_state es)))
             (map (fun e => uint8_of_bool (Experience.done e)) es) =
  ok (bootstrapped g af cf es).
Proof.
  assert (Hq : length (Np.zip_with cf (map Experience.next_state es)
                         (map af (map Experience.next_state es))) = length es).
  { rewrite zip_with_length; rewrite !length_map; reflexivity. }
  unfold td_targets, bootstrapped, Np.add.
  rewrite broadcast1_same_length.
  - cbn [rbind ok]. rewrite broadcast1_same_length; [reflexivity|].
    rewrite zip_with_length; unfold Np.smul; rewrite !length_map; congruence.
  - unfold Np.smul. rewrite !length_map. congruence.
Qed.

Lemma bootstrapped_elementwise (g : Q) (af : Np.vec -> Np.vec)
    (cf : Np.vec -> Np.vec -> Q) (es : list Experience.t) :
  Forall2 (fun e y =>
             y == Experience.reward e
                  + g * cf (Experience.next_state e) (af (Experience.next_state e))
                    * (1 - (if Experience.done e then 1 else 0)) /\
             (Experience.done e = true -> y == Experience.reward e))
          es (bootstrapped g af cf es).
Proof.
  unfold bootstrapped.
  induction es as [|e es IH]; simpl; constructor; [|exact IH].
  rewrite not_done_flag. split.
  - reflexivity.
  - intros ->. ring.
Qed.

Lemma trace_set_net n m s : trace (set_net n m s) = trace s.
Proof. reflexivity. Qed.

Lemma trace_record ev s : trace (record ev s) = trace s ++ [ev].
Proof. reflexivity. Qed.

Lemma sync_not_train (new : list event) states actions y :
  forallb is_sync new = true -> ~ In (TrainOnBatch states actions y) new.
Proof.
  intros H Hin. rewrite forallb_forall in H. apply H in Hin. discriminate.
Qed.

(** C1.  In every call of [learn], the targets the local critic is trained
    toward are, transition by transition,
    [reward + gamma * Q_target(next_state, actor_target(next_state)) * (1 - done)];
    for a transition with [done = true] the target equals the reward,
    whatever the target critic's estimate.  A call that returns has trained
    the critic. *)
Theorem learn_td_targets (s : agent) (exps : list (option Experience.t)) :
  exists new,
    trace (snd (learn nets exps s)) = trace s ++ new /\
    (forall states actions y,
        In (TrainOnBatch states actions y) new ->
        Forall2 (fun e yi =>
                   yi == td_target_spec nets s e /\
                   (Experience.done e = true -> yi == Experience.reward e))
                (not_none exps) y) /\
    (fst (learn nets exps s) = inr tt ->
     exists states actions y, In (TrainOnBatch states actions y) new).
Proof.
  rewrite learn_unfold. cbv zeta.
  set (es := not_none exps).
  destruct (Np.vstack (map Experience.state es)) as [e|states] eqn:Hst.
  { exists [Learn exps]. simpl. repeat split.
    - intros ? ? ? [H|[]]. discriminate.
    - discriminate. }
  destruct (array_reshape _ _) as [e|actions].
  { exists [Learn exps]. simpl. repeat split.
    - intros ? ? ? [H|[]]. discriminate.
    - discriminate. }
  destruct (Np.vstack (map Experience.next_state es)) as [e|next_states] eqn:Hns.
  { exists [Learn exps]. simpl. repeat split.
    - intros ? ? ? [H|[]]. discriminate.
    - discriminate. }
  apply vstack_ok in Hns. subst next_states.
  unfold critic_predict, actor_predict.
  rewrite td_targets_closed.
  set (Y := bootstrapped _ _ _ _). unfold ok. cbv beta iota.
  assert (HY : Forall2 (fun e yi =>
                   yi == td_target_spec nets s e /\
                   (Experience.done e = true -> yi == Experience.reward e))
                es Y).
  { apply bootstrapped_elementwise. }
  set (critic' := critic_train_on_batch nets _ _ _ _).
  destruct (Np.reshape_rows _ _) as [e|grads].
  { exists [Learn exps; TrainOnBatch states actions Y;
            GetActionGradients (Keras.get_weights critic') states actions].
    cbn [snd fst]. rewrite !trace_record, !trace_set_net, !trace_record.
    rewrite <- !app_assoc. repeat split.
    - intros ? ? ? [H|[H|[H|[]]]]; try discriminate. inversion H; subst. exact HY.
    - discriminate. }
  set (s3 := set_net ActorLocal _ _).
  assert (Hs3 : trace s3 = trace s ++
            [Learn exps; TrainOnBatch states actions Y;
             GetActionGradients (Keras.get_weights critic') states actions;
             TrainFn states grads]).
  { subst s3. rewrite !trace_set_net, !trace_record, !trace_set_net, !trace_record.
    rewrite <- !app_assoc. reflexivity. }
  destruct (soft_update_trace CriticLocal CriticTarget (tau_critic s) s3)
    as (new1 & Ht1 & Hn1).
  destruct (soft_update nets CriticLocal CriticTarget (tau_critic s) s3)
    as [[e|u] s4].
  { exists ([Learn exps; TrainOnBatch states actions Y;
             GetActionGradients (Keras.get_weights critic') states actions;
             TrainFn states grads] ++ new1).
    cbn [snd fst] in *. rewrite Ht1, Hs3, <- app_assoc. repeat split.
    - intros ? ? ? [H|[H|[H|[H|H]]]]; try discriminate.
      + inversion H; subst. exact HY.
      + exfalso. revert H. apply sync_not_train. assumption.
    - discriminate. }
  destruct (soft_update_trace ActorLocal ActorTarget (tau_actor s4) s4)
    as (new2 & Ht2 & Hn2).
  exists ([Learn exps; TrainOnBatch states actions Y;
           GetActionGradients (Keras.get_weights critic') states actions;
           TrainFn states grads] ++ new1 ++ new2).
  cbn [snd fst] in *. rewrite Ht2, Ht1, Hs3, <- !app_assoc. repeat split.
  - intros ? ? ? [H|[H|[H|[H|H]]]]; try discriminate.
    + inversion H; subst. exact HY.
    + simpl in H. apply in_app_or in H. destruct H as [H|H];
        exfalso; revert H; apply sync_not_train; assumption.
  - intros _. exists states, actions, Y. simpl. auto.
Qed.

(** *** Weight arithmetic *)

Lemma shape_eqb_refl (sh : list nat) : Np.shape_eqb sh sh = true.
Proof. unfold Np.shape_eqb. destruct (list_eq_dec _ _ _); congruence. Qed.

Lemma zip_with_scaled (c d : Q) (xs ys : list Q) :
  Np.zip_with Qplus (map (fun a => c * a) xs) (map (fun a => d * a) ys) =
  Np.zip_with (fun x y => c * x + d * y) xs ys.
Proof.
  revert ys. induction xs as [|x xs IH]; intros [|y ys]; simpl; auto.
  now rewrite IH.
Qed.

Lemma objects_add_same_shapes (tau : Q) (lw tw : list Np.ndarray) :
  Keras.shapes lw = Keras.shapes tw ->
  rbind (Np.broadcast1 (Np.binop Qplus) (map (Np.scale tau) lw)
                       (map (Np.scale (1 - tau)) tw))
        (rmapM (fun r => r)) =
  ok (soft_update_spec tau lw tw).
Proof.
  intros Hsh.
  rewrite broadcast1_same_length.
  2:{ rewrite !length_map.
      apply (f_equal (@length _)) in Hsh. unfold Keras.shapes in Hsh.
      now rewrite !length_map in Hsh. }
  cbn [rbind ok]. unfold soft_update_spec.
  revert tw Hsh. induction lw as [|l lw IH]; intros [|t tw] Hsh;
    simpl in *; try discriminate; try reflexivity.
  injection Hsh as Hs Hsh.
  unfold Np.binop at 1. cbn [Np.scale Np.shape Np.data].
  rewrite Hs, shape_eqb_refl. cbn [rbind ok].
  rewrite (IH _ Hsh). cbn [rbind ok]. now rewrite zip_with_scaled.
Qed.

Lemma zip_with_app {A B C} (f : A -> B -> C) xs xs' ys ys' :
  length xs = length ys ->
  Np.zip_with f (xs ++ xs') (ys ++ ys') =
  Np.zip_with f xs ys ++ Np.zip_with f xs' ys'.
Proof.
  revert ys. induction xs as [|x xs IH]; intros [|y ys] H;
    simpl in *; try discriminate; [reflexivity|].
  f_equal. apply IH. congruence.
Qed.

(** Stacked tensors of [k] numbers each, combined number by number and cut
    into rows again, are the tensors combined one by one. *)
Lemma chunks_zip_concat (f : Q -> Q -> Q) (k : nat) (lw tw : list Np.ndarray) :
  Forall (fun w => length (Np.data w) = k) lw ->
  Forall (fun w => length (Np.data w) = k) tw ->
  length lw = length tw ->
  Np.chunks k (length lw)
    (Np.zip_with f (concat (map Np.data lw)) (concat (map Np.data tw))) =
  Np.zip_with (fun l t => Np.zip_with f (Np.data l) (Np.data t)) lw tw.
Proof.
  intros Hl. revert tw.
  induction Hl as [|l lw Hk Hl IH]; intros [|t tw] Ht Hlen;
    simpl in *; try discriminate; [reflexivity|].
  inversion Ht as [|? ? Hk' Ht']; subst.
  rewrite zip_with_app by congruence.
  assert (Hz : length (Np.zip_with f (Np.data l) (Np.data t)) =
               length (Np.data l)) by (apply zip_with_length; congruence).
  rewrite firstn_app, skipn_app, Hz, Nat.sub_diag. cbn [firstn skipn].
  rewrite firstn_all2, skipn_all2, app_nil_r by (rewrite Hz; lia). cbn [app].
  f_equal. apply IH; [assumption | congruence].
Qed.

Lemma uniform_shapes (ws : list Np.ndarray) :
  Np.uniform (map Np.shape ws) = true ->
  Forall (fun w => Np.shape w = hd [] (map Np.shape ws)) ws.
Proof.
  destruct ws as [|w ws]; [constructor|]. cbn [map Np.uniform hd].
  intros H. constructor; [reflexivity|].
  rewrite forallb_forall in H. apply Forall_forall. intros w' Hin.
  specialize (H (Np.shape w') (in_map _ _ _ Hin)).
  unfold Np.shape_eqb in H.
  destruct (list_eq_dec _ _ _); [congruence|discriminate].
Qed.

Lemma zip_with_shaped (g : Np.ndarray -> Np.ndarray -> list Q) (sh : list nat)
    (lw tw : list Np.ndarray) :
  Forall (fun w => Np.shape w = sh) tw ->
  map (Np.mk_ndarray sh) (Np.zip_with g lw tw) =
  Np.zip_with (fun l t => Np.mk_ndarray (Np.shape t) (g l t)) lw tw.
Proof.
  intros Ht. revert lw. induction Ht as [|t tw Hs Ht IH]; intros [|l lw];
    simpl; try reflexivity.
  now rewrite IH, Hs.
Qed.

Lemma uniform_constant {A} (sh : list nat) (cs : list A) :
  Np.uniform (map (fun _ => sh) cs) = true.
Proof.
  destruct cs as [|c cs]; [reflexivity|]. cbn [map Np.uniform].
  apply forallb_forall. intros x Hin. apply in_map_iff in Hin.
  destruct Hin as (? & <- & _). apply shape_eqb_refl.
Qed.

(** On two weight lists of the same shapes, the first of which [np.array]
    turns into an array of its tensors, lines 126 to 132 compute the
    interpolation, tensor by tensor. *)
Lemma new_weights_same_shapes (v : Np.version) (tau : Q)
    (lw tw : list Np.ndarray) :
  Keras.shapes lw = Keras.shapes tw ->
  Forall Np.wf_ndarray lw -> Forall Np.wf_ndarray tw ->
  entrywise v lw ->
  new_weights v tau lw tw = ok (soft_update_spec tau lw tw).
Proof.
  intros Hsh Hwl Hwt (a & Ha & Hrows). unfold Keras.shapes in Hsh.
  assert (Hlen : length lw = length tw).
  { apply (f_equal (@length _)) in Hsh. now rewrite !length_map in Hsh. }
  unfold new_weights. unfold Np.array in *. cbv zeta in *.
  rewrite <- Hsh, <- Hlen.
  destruct (Np.uniform (map Np.shape lw)) eqn:Hu.
  - cbn [rbind ok Np.len Np.shape hd]. rewrite Nat.eqb_refl.
    cbn [Np.wscale Np.wadd]. unfold Np.binop.
    cbn [Np.scale Np.shape Np.data]. rewrite shape_eqb_refl.
    cbn [rbind ok Np.rows Np.shape Np.data]. rewrite zip_with_scaled.
    set (sh := hd [] (map Np.shape lw)).
    assert (Hsl : Forall (fun w => Np.shape w = sh) lw)
      by (apply uniform_shapes, Hu).
    assert (Hst : Forall (fun w => Np.shape w = sh) tw).
    { subst sh. rewrite Hsh. apply uniform_shapes. now rewrite <- Hsh. }
    rewrite chunks_zip_concat.
    + now rewrite (zip_with_shaped _ sh lw tw Hst).
    + rewrite Forall_forall in *. intros w Hin.
      rewrite (Hwl w Hin), (Hsl w Hin). reflexivity.
    + rewrite Forall_forall in *. intros w Hin.
      rewrite (Hwt w Hin), (Hst w Hin). reflexivity.
    + exact Hlen.
  - destruct v; [|discriminate].
    destruct (Np.common_prefix (map Np.shape lw)) as [|d p].
    + cbn [rbind ok Np.len]. rewrite Hlen, Nat.eqb_refl.
      cbn [Np.wscale Np.wadd].
      pose proof (objects_add_same_shapes tau lw tw Hsh) as Ho.
      destruct (Np.broadcast1 _ _ _) as [e|rs]; cbn [rbind] in *;
        [discriminate|].
      rewrite Ho. reflexivity.
    + destruct (forallb _ _); [|discriminate].
      injection Ha as <-. cbn [Np.rows Np.shape Np.data] in Hrows.
      rewrite <- Hrows, map_map in Hu. cbn [Np.shape] in Hu.
      now rewrite uniform_constant in Hu.
Qed.

Lemma soft_update_spec_shapes (tau : Q) (lw tw : list Np.ndarray) :
  Keras.shapes lw = Keras.shapes tw ->
  Keras.shapes (soft_update_spec tau lw tw) = Keras.shapes tw.
Proof.
  unfold soft_update_spec, Keras.shapes.
  revert tw. induction lw as [|l lw IH]; intros [|t tw] Hsh;
    simpl in *; try discriminate; auto.
  injection Hsh as _ Hsh. now rewrite IH.
Qed.

Lemma set_weights_ok (m : Keras.model) (ws : list Np.ndarray) :
  Keras.shapes ws = Keras.shapes (Keras.get_weights m) ->
  exists m',
    Keras.set_weights m ws = ok m' /\
    Keras.get_weights m' = ws /\
    map Keras.var_name (Keras.variables m') = map Keras.var_name (Keras.variables m) /\
    Keras.optimizer_slots m' = Keras.optimizer_slots m.
Proof.
  intros Hsh. unfold Keras.set_weights.
  destruct (list_eq_dec _ _ _) as [_|n]; [|contradiction].
  eexists. split; [reflexivity|].
  apply (f_equal (@length _)) in Hsh.
  unfold Keras.shapes, Keras.get_weights in *. rewrite !length_map in Hsh.
  cbn [Keras.variables Keras.optimizer_slots].
  split; [|split; [|reflexivity]].
  - revert ws Hsh. induction (Keras.variables m) as [|v vs IH];
      intros [|w ws] Hlen; simpl in *; try discriminate; auto.
    f_equal. apply IH. congruence.
  - revert ws Hsh. induction (Keras.variables m) as [|v vs IH];
      intros [|w ws] Hlen; simpl in *; try discriminate; auto.
    f_equal. apply IH. congruence.
Qed.

Lemma set_weights_inv (m m' : Keras.model) (ws : list Np.ndarray) :
  Keras.set_weights m ws = inr m' ->
  Keras.shapes ws = Keras.shapes (Keras.get_weights m).
Proof.
  unfold Keras.set_weights. destruct (list_eq_dec _ _ _); [auto|discriminate].
Qed.

(** What a soft update makes of the agent when the two networks have the
    same parameter shapes and [np.array] builds arrays of their tensors. *)
Lemma soft_update_run (l t : net) (tau : Q) (s : agent) :
  Keras.shapes (Keras.get_weights (get_net l s)) =
  Keras.shapes (Keras.get_weights (get_net t s)) ->
  Forall Np.wf_ndarray (Keras.get_weights (get_net l s)) ->
  Forall Np.wf_ndarray (Keras.get_weights (get_net t s)) ->
  entrywise (numpy nets) (Keras.get_weights (get_net l s)) ->
  exists m',
    soft_update nets l t tau s =
    (ok tt, set_net t m'
              (record (SetWeights t (soft_update_spec tau
                         (Keras.get_weights (get_net l s))
                         (Keras.get_weights (get_net t s))))
                 (record (SoftUpdate l t tau) s))) /\
    Keras.get_weights m' =
      soft_update_spec tau (Keras.get_weights (get_net l s))
                           (Keras.get_weights (get_net t s)) /\
    map Keras.var_name (Keras.variables m') =
      map Keras.var_name (Keras.variables (get_net t s)) /\
    Keras.optimizer_slots m' = Keras.optimizer_slots (get_net t s).
Proof.
  intros Hsh Hwl Hwt Hb. rewrite soft_update_unfold. cbv zeta.
  rewrite (new_weights_same_shapes _ _ _ _ Hsh Hwl Hwt Hb). unfold ok at 1.
  destruct (set_weights_ok (get_net t s)
              (soft_update_spec tau (Keras.get_weights (get_net l s))
                                    (Keras.get_weights (get_net t s))))
    as (m' & Hset & Hw & Hn & Ho).
  { apply soft_update_spec_shapes, Hsh. }
  exists m'. rewrite Hset. unfold ok. auto.
Qed.

Lemma get_net_set_net_same n m s : get_net n (set_net n m s) = m.
Proof. destruct n; reflexivity. Qed.

Lemma get_net_set_net_other n n' m s :
  n' <> n -> get_net n' (set_net n m s) = get_net n' s.
Proof. destruct n, n'; intros H; try reflexivity; contradiction. Qed.

Lemma interpolation_at_one (tau : Q) (xs ys : list Q) :
  tau == 1 -> length xs = length ys ->
  Forall2 Qeq (Np.zip_with (fun x y => tau * x + (1 - tau) * y) xs ys) xs.
Proof.
  intros Ht. revert ys. induction xs as [|x xs IH]; intros [|y ys] Hlen;
    simpl in *; try discriminate; constructor.
  - rewrite Ht. ring.
  - apply IH. congruence.
Qed.

Lemma interpolation_at_zero (tau : Q) (xs ys : list Q) :
  tau == 0 -> length xs = length ys ->
  Forall2 Qeq (Np.zip_with (fun x y => tau * x + (1 - tau) * y) xs ys) ys.
Proof.
  intros Ht. revert ys. induction xs as [|x xs IH]; intros [|y ys] Hlen;
    simpl in *; try discriminate; constructor.
  - rewrite Ht. ring.
  - apply IH. congruence.
Qed.

Lemma soft_update_spec_boundaries (tau : Q) (lw tw : list Np.ndarray) :
  Keras.shapes lw = Keras.shapes tw ->
  Forall Np.wf_ndarray lw -> Forall Np.wf_ndarray tw ->
  (tau == 1 -> same_weights (soft_update_spec tau lw tw) lw) /\
  (tau == 0 -> same_weights (soft_update_spec tau lw tw) tw).
Proof.
  unfold same_weights, soft_update_spec, Keras.shapes.
  intros Hsh Hl. revert tw Hsh.
  induction Hl as [|l lw Hwl Hl IH]; intros [|t tw] Hsh Ht;
    simpl in *; try discriminate.
  - split; constructor.
  - injection Hsh as Hs Hsh. inversion Ht as [|? ? Hwt Ht']; subst.
    destruct (IH _ Hsh Ht') as [IH1 IH0].
    assert (Hlen : length (Np.data l) = length (Np.data t)).
    { unfold Np.wf_ndarray in *. congruence. }
    split; intros Htau; constructor; auto; cbn [Np.shape Np.data]; split;
      auto using interpolation_at_one, interpolation_at_zero.
Qed.

(** X20.  On two networks with the same parameter shapes, whose weight
    lists numpy turns into arrays of their tensors, [soft_update] returns
    normally and sets every target parameter to
    [tau * local_param + (1 - tau) * target_param];
    it writes nothing else: the other three networks, the target's variable
    names and optimizer slots, the noise process and the replay memory are as
    before.  With [tau = 1] every target parameter becomes equal to the local
    one, with [tau = 0] every target parameter keeps its value. *)
Theorem soft_update_interpolates (l t : net) (tau : Q) (s : agent)
    (lw tw : list Np.ndarray) :
  lw = Keras.get_weights (get_net l s) ->
  tw = Keras.get_weights (get_net t s) ->
  Keras.shapes lw = Keras.shapes tw ->
  Forall Np.wf_ndarray lw -> Forall Np.wf_ndarray tw ->
  entrywise (numpy nets) lw ->
  exists s',
    soft_update nets l t tau s = (ok tt, s') /\
    Keras.get_weights (get_net t s') = soft_update_spec tau lw tw /\
    (forall n, n <> t -> get_net n s' = get_net n s) /\
    map Keras.var_name (Keras.variables (get_net t s')) =
      map Keras.var_name (Keras.variables (get_net t s)) /\
    Keras.optimizer_slots (get_net t s') = Keras.optimizer_slots (get_net t s) /\
    noise s' = noise s /\ memory s' = memory s /\
    (tau == 1 -> same_weights (Keras.get_weights (get_net t s')) lw) /\
    (tau == 0 -> same_weights (Keras.get_weights (get_net t s')) tw).
Proof.
  intros -> -> Hsh Hl Ht Hb.
  set (lw := Keras.get_weights (get_net l s)) in *.
  set (tw := Keras.get_weights (get_net t s)) in *.
  destruct (soft_update_run l t tau s Hsh Hl Ht Hb) as (m' & Hrun & Hw & Hn & Ho).
  destruct (soft_update_spec_boundaries tau lw tw Hsh Hl Ht) as [H1 H0].
  eexists. split; [exact Hrun|].
  rewrite get_net_set_net_same, Hw. fold lw tw.
  repeat split; auto.
  - intros n Hn'. rewrite get_net_set_net_other by exact Hn'.
    now rewrite !get_net_record.
Qed.

(** C9.  [soft_update] leaves the local model as it was, whatever [tau],
    whatever the two weight lists and whether the call returns or raises:
    of the agent's networks only the target model is written. *)
Theorem soft_update_preserves_local (l t : net) (tau : Q) (s : agent) :
  l <> t ->
  get_net l (snd (soft_update nets l t tau s)) = get_net l s /\
  (forall n, n <> t -> get_net n (snd (soft_update nets l t tau s)) = get_net n s).
Proof.
  intros Hlt.
  assert (H : forall n, n <> t ->
                get_net n (snd (soft_update nets l t tau s)) = get_net n s).
  { intros n Hn. rewrite soft_update_unfold. cbv zeta.
    destruct (new_weights _ _ _ _); [apply get_net_record|].
    destruct (Keras.set_weights _ _); [apply get_net_record|].
    cbn [snd]. rewrite get_net_set_net_other by exact Hn.
    now rewrite !get_net_record. }
  split; [apply H; exact Hlt | exact H].
Qed.

(** A soft update that raises has written no network at all. *)
Lemma soft_update_raise_frame (l t : net) (tau : Q) (s : agent) (e : exn) :
  fst (soft_update nets l t tau s) = inl e ->
  forall n, get_net n (snd (soft_update nets l t tau s)) = get_net n s.
Proof.
  rewrite soft_update_unfold. cbv zeta. intros H n.
  destruct (new_weights _ _ _ _); [apply get_net_record|].
  destruct (Keras.set_weights _ _); [apply get_net_record|].
  discriminate.
Qed.

(** The array numpy builds from a list of tensors has the list's length. *)
Lemma array_len (v : Np.version) (ws : list Np.ndarray) (a : Np.warray) :
  Np.array v ws = inr a -> Np.len a = length ws.
Proof.
  unfold Np.array. cbv zeta.
  destruct (Np.uniform _).
  - intros [= <-]. reflexivity.
  - destruct v; [|discriminate].
    destruct (Np.common_prefix _); [intros [= <-]; reflexivity|].
    destruct (forallb _ _); [|discriminate].
    intros [= <-]. reflexivity.
Qed.

(** Building the array fails with a value error only. *)
Lemma array_error (v : Np.version) (ws : list Np.ndarray) (e : exn) :
  Np.array v ws = inl e -> e = ValueError.
Proof.
  unfold Np.array. cbv zeta.
  destruct (Np.uniform _); [discriminate|].
  destruct v; [|now intros [= <-]].
  destruct (Np.common_prefix _); [discriminate|].
  destruct (forallb _ _); [discriminate|now intros [= <-]].
Qed.

(** Weight lists of different lengths never reach the interpolation: the
    arrays are built first, and if both are built the assertion fails. *)
Lemma new_weights_size_mismatch (v : Np.version) (tau : Q)
    (lw tw : list Np.ndarray) :
  length lw <> length tw ->
  (new_weights v tau lw tw = inl AssertionError \/
   new_weights v tau lw tw = inl ValueError) /\
  (new_weights v tau lw tw = inl AssertionError <->
   buildable v lw /\ buildable v tw).
Proof.
  intros Hlen. unfold new_weights, buildable, rbind, throw.
  destruct (Np.array v lw) as [e|a] eqn:Ha.
  { apply array_error in Ha. subst e. split; [now right|].
    split; [discriminate | intros [[a Ha] _]; discriminate]. }
  destruct (Np.array v tw) as [e|b] eqn:Hb.
  { apply array_error in Hb. subst e. split; [now right|].
    split; [discriminate | intros [_ [b Hb]]; discriminate]. }
  rewrite (array_len _ _ _ Ha), (array_len _ _ _ Hb).
  apply Nat.eqb_neq in Hlen. rewrite Hlen.
  split; [now left|]. split; eauto.
Qed.

Lemma soft_update_events (l t : net) (tau : Q) (s : agent) :
  (exists e, soft_update nets l t tau s = (inl e, record (SoftUpdate l t tau) s)) \/
  (exists w m,
      new_weights (numpy nets) tau (Keras.get_weights (get_net l s))
                  (Keras.get_weights (get_net t s)) = inr w /\
      Keras.set_weights (get_net t s) w = inr m /\
      soft_update nets l t tau s =
      (inr tt, set_net t m (record (SetWeights t w)
                              (record (SoftUpdate l t tau) s)))).
Proof.
  rewrite soft_update_unfold. cbv zeta.
  destruct (new_weights _ _ _ _) as [e|w] eqn:Hw; [left; eauto|].
  destruct (Keras.set_weights _ _) as [e|m] eqn:Hm; [left; eauto|].
  right. exists w, m. auto.
Qed.

(** A soft update changes neither the shapes nor the names of any
    network's parameters, whether it returns or raises. *)
Lemma soft_update_layout (l t : net) (tau : Q) (s : agent) (n : net) :
  arch (snd (soft_update nets l t tau s)) n = arch s n /\
  map Keras.var_name (Keras.variables (get_net n (snd (soft_update nets l t tau s)))) =
  map Keras.var_name (Keras.variables (get_net n s)).
Proof.
  destruct (soft_update_events l t tau s)
    as [[e He] | (w & m & _ & Hm & He)]; rewrite He; cbn [snd]; unfold arch.
  - now rewrite get_net_record.
  - pose proof (set_weights_inv _ _ _ Hm) as Hsh.
    destruct (set_weights_ok (get_net t s) w Hsh) as (m' & Hset & Hw & Hn & _).
    unfold ok in Hset. assert (m' = m) by congruence. subst m'.
    assert (Hd : n = t \/ n <> t)
      by (destruct n, t; auto; right; discriminate).
    destruct Hd as [-> | Hne].
    + rewrite get_net_set_net_same. split; [now rewrite Hw | exact Hn].
    + rewrite get_net_set_net_other by exact Hne.
      now rewrite !get_net_record.
Qed.

(** C8, as the code has it.  Whenever the local and the target model differ
    in their number of weight tensors, [soft_update] raises: an assertion
    error if numpy builds an array from each of the two weight lists, and
    a value error otherwise.  A soft update that raises, of whatever kind,
    has written no parameter of any network; and whether it raises or
    returns, every network keeps the shapes and the names of its
    parameters. *)
Theorem soft_update_rejects_size_mismatch (l t : net) (tau : Q) (s : agent) :
  (length (Keras.get_weights (get_net l s)) <>
   length (Keras.get_weights (get_net t s)) ->
   (fst (soft_update nets l t tau s) = inl AssertionError \/
    fst (soft_update nets l t tau s) = inl ValueError) /\
   (fst (soft_update nets l t tau s) = inl AssertionError <->
    buildable (numpy nets) (Keras.get_weights (get_net l s)) /\
    buildable (numpy nets) (Keras.get_weights (get_net t s)))) /\
  (forall e, fst (soft_update nets l t tau s) = inl e ->
             forall n, get_net n (snd (soft_update nets l t tau s)) = get_net n s) /\
  (forall n,
     arch (snd (soft_update nets l t tau s)) n = arch s n /\
     map Keras.var_name
         (Keras.variables (get_net n (snd (soft_update nets l t tau s)))) =
     map Keras.var_name (Keras.variables (get_net n s))).
Proof.
  split; [|split].
  - intros Hlen.
    destruct (new_weights_size_mismatch (numpy nets) tau _ _ Hlen) as [Hk Hiff].
    rewrite soft_update_unfold. cbv zeta.
    destruct (new_weights _ _ _ _) as [e|nw].
    + cbn [fst]. split.
      * destruct Hk as [Hk|Hk]; injection Hk as ->; auto.
      * rewrite <- Hiff. split; intros H; injection H as ->; reflexivity.
    + destruct Hk; discriminate.
  - intros e. apply soft_update_raise_frame.
  - apply soft_update_layout.
Qed.

(** *** The order of operations in [learn] *)

(** C5.  In every call of [learn] the operations happen in this order:
    the local critic is trained toward the TD targets, then the action
    gradient is taken from the local critic, then the local actor is
    trained, then the critic target is soft-updated and last the actor
    target.  In a call that returns, the gradient is evaluated at the
    critic's parameters after its training step, the actor is trained with
    that gradient, and each soft update reads the local network as its
    training left it. *)
Theorem learn_order (s : agent) (exps : list (option Experience.t)) :
  (exists new,
      trace (snd (learn nets exps s)) = trace s ++ new /\
      StronglySorted lt (map phase new)) /\
  (fst (learn nets exps s) = inr tt ->
   exists states actions Q_targets grads w_critic w_actor,
     let s' := snd (learn nets exps s) in
     trace s' = trace s ++
       [Learn exps;
        TrainOnBatch states actions Q_targets;
        GetActionGradients (Keras.get_weights (critic_local s')) states actions;
        TrainFn states grads;
        SoftUpdate CriticLocal CriticTarget (tau_critic s);
        SetWeights CriticTarget w_critic;
        SoftUpdate ActorLocal ActorTarget (tau_actor s);
        SetWeights ActorTarget w_actor] /\
     critic_local s' =
       critic_train_on_batch nets (critic_local s) states actions Q_targets /\
     Np.reshape_rows (action_size s)
       (concat (critic_get_action_gradients nets
                  (Keras.get_weights (critic_local s')) states actions))
       = inr grads /\
     actor_local s' = actor_train_fn nets (actor_local s) states grads /\
     new_weights (numpy nets) (tau_critic s)
       (Keras.get_weights (critic_local s')) (Keras.get_weights (critic_target s))
       = inr w_critic /\
     Keras.set_weights (critic_target s) w_critic = inr (critic_target s') /\
     new_weights (numpy nets) (tau_actor s)
       (Keras.get_weights (actor_local s')) (Keras.get_weights (actor_target s))
       = inr w_actor /\
     Keras.set_weights (actor_target s) w_actor = inr (actor_target s')).
Proof.
  rewrite learn_unfold. cbv zeta.
  destruct (Np.vstack (map Experience.state _)) as [e|states].
  { split; [|discriminate]. exists [Learn exps]. split; [reflexivity|].
    repeat constructor. }
  destruct (array_reshape _ _) as [e|actions].
  { split; [|discriminate]. exists [Learn exps]. split; [reflexivity|].
    repeat constructor. }
  destruct (Np.vstack (map Experience.next_state _)) as [e|next_states].
  { split; [|discriminate]. exists [Learn exps]. split; [reflexivity|].
    repeat constructor. }
  destruct (td_targets _ _ _ _) as [e|Y].
  { split; [|discriminate]. exists [Learn exps]. split; [reflexivity|].
    repeat constructor. }
  set (critic' := critic_train_on_batch nets _ _ _ _).
  destruct (Np.reshape_rows _ _) as [e|grads] eqn:Hg.
  { split; [|discriminate].
    exists [Learn exps; TrainOnBatch states actions Y;
            GetActionGradients (Keras.get_weights critic') states actions].
    split.
    - cbn [snd]. rewrite !trace_record, !trace_set_net, !trace_record.
      rewrite <- !app_assoc. reflexivity.
    - repeat constructor. }
  set (s3 := set_net ActorLocal _ _).
  assert (Hs3 : trace s3 = trace s ++
            [Learn exps; TrainOnBatch states actions Y;
             GetActionGradients (Keras.get_weights critic') states actions;
             TrainFn states grads]).
  { subst s3. rewrite !trace_set_net, !trace_record, !trace_set_net, !trace_record.
    rewrite <- !app_assoc. reflexivity. }
  destruct (soft_update_events CriticLocal CriticTarget (tau_critic s) s3)
    as [[e He] | (w1 & m1 & Hw1 & Hm1 & He)]; rewrite He.
  { split; [|discriminate].
    eexists. split.
    - cbn [snd]. rewrite trace_record, Hs3, <- app_assoc. reflexivity.
    - repeat constructor. }
  set (s4 := set_net CriticTarget m1 _).
  assert (Hs4 : trace s4 = trace s ++
            [Learn exps; TrainOnBatch states actions Y;
             GetActionGradients (Keras.get_weights critic') states actions;
             TrainFn states grads;
             SoftUpdate CriticLocal CriticTarget (tau_critic s);
             SetWeights CriticTarget w1]).
  { subst s4. rewrite trace_set_net, !trace_record, Hs3, <- !app_assoc.
    reflexivity. }
  destruct (soft_update_events ActorLocal ActorTarget (tau_actor s4) s4)
    as [[e He'] | (w2 & m2 & Hw2 & Hm2 & He')]; rewrite He'.
  { split; [|discriminate].
    eexists. split.
    - cbn [snd]. rewrite trace_record, Hs4, <- app_assoc. reflexivity.
    - repeat constructor. }
  split.
  - eexists. split.
    + cbn [snd]. rewrite trace_set_net, !trace_record, Hs4, <- !app_assoc.
      reflexivity.
    + repeat constructor.
  - intros _. exists states, actions, Y, grads, w1, w2. cbv zeta. cbn [snd].
    split.
    { rewrite trace_set_net, !trace_record, Hs4, <- !app_assoc. reflexivity. }
    repeat split; try reflexivity; assumption.
Qed.

(** *** The replay memory *)

Lemma sample_some (b : ReplayBuffer.t) (rnd : nat -> nat) (ks : list nat) :
  ReplayBuffer.len b <> 0%nat ->
  Forall (fun o => exists e, o = Some e /\ In e (ReplayBuffer.memory b))
         (map (fun k => nth_error (ReplayBuffer.memory b)
                          (rnd k mod ReplayBuffer.len b)) ks).
Proof.
  intros Hlen. induction ks as [|k ks IH]; simpl; constructor; [|exact IH].
  destruct (nth_error (ReplayBuffer.memory b) (rnd k mod ReplayBuffer.len b))
    as [e|] eqn:He.
  - exists e. split; [reflexivity|]. eapply nth_error_In, He.
  - apply nth_error_None in He.
    pose proof (Nat.mod_upper_bound (rnd k) _ Hlen) as Hlt.
    unfold ReplayBuffer.len in *. lia.
Qed.

(** C7.  [sample] fails with [InsufficientDataError] whenever the memory
    holds at most [batch_size] transitions; with [batch_size + 1]
    transitions it returns exactly [batch_size] of the stored ones. *)
Theorem sample_precondition (b : ReplayBuffer.t) (rnd : nat -> nat) :
  (ReplayBuffer.len b <= ReplayBuffer.batch_size b ->
   ReplayBuffer.sample b rnd = inl InsufficientDataError)%nat /\
  (ReplayBuffer.len b = ReplayBuffer.batch_size b + 1 ->
   exists experiences,
     ReplayBuffer.sample b rnd = inr experiences /\
     length experiences = ReplayBuffer.batch_size b /\
     Forall (fun o => exists e, o = Some e /\ In e (ReplayBuffer.memory b))
            experiences)%nat.
Proof.
  unfold ReplayBuffer.sample. split; intros H.
  - apply Nat.leb_le in H. now rewrite H.
  - assert (Hgt : Nat.leb (ReplayBuffer.len b) (ReplayBuffer.batch_size b) = false).
    { apply Nat.leb_gt. lia. }
    rewrite Hgt. eexists. split; [reflexivity|]. split.
    + now rewrite length_map, length_seq.
    + apply sample_some. lia.
Qed.

(** *** [step], case by case *)

Lemma preprocess_state_pure (state : Np.vec) (s : agent) :
  preprocess_state state s =
  (normalize (state_low s) (state_range s) state, s).
Proof.
  cbv [preprocess_state normalize bind gets lift ret ok rbind].
  destruct (Np.sub _ _); [reflexivity|].
  destruct (Np.div _ _); reflexivity.
Qed.

Lemma step_unfold (state action : Np.vec) (reward : Q) (next_state : Np.vec)
    (done : bool) (rnd : nat -> nat) (s : agent) :
  step nets state action reward next_state done rnd s =
  match normalize (state_low s) (state_range s) state with
  | inl e => (inl e, s)
  | inr state' =>
  match normalize (state_low s) (state_range s) next_state with
  | inl e => (inl e, s)
  | inr next_state' =>
  let s1 := stored (Experience.mk state' action reward next_state' done) s in
  if Nat.ltb (batch_size s) (ReplayBuffer.len (memory s1)) then
    match ReplayBuffer.sample (memory s1) rnd with
    | inl e => (inl e, s1)
    | inr experiences =>
        learn nets experiences (record (MemorySample experiences) s1)
    end
  else (inr tt, s1)
  end end.
Proof.
  unfold step. unfold bind at 1. rewrite preprocess_state_pure.
  destruct (normalize _ _ state); [reflexivity|].
  unfold bind at 1. rewrite preprocess_state_pure.
  destruct (normalize _ _ next_state); [reflexivity|].
  cbv [bind gets lift emit modify ret ok stored].
  cbn [memory batch_size set_memory record].
  destruct (Nat.ltb _ _); [|reflexivity].
  destruct (ReplayBuffer.sample _ _); reflexivity.
Qed.

Lemma add_appends (b : ReplayBuffer.t) (e : Experience.t) :
  exists kept, ReplayBuffer.memory (ReplayBuffer.add b e) = kept ++ [e].
Proof.
  unfold ReplayBuffer.add. destruct (Nat.eqb _ _); eexists; reflexivity.
Qed.

Lemma add_batch_size (b : ReplayBuffer.t) (e : Experience.t) :
  ReplayBuffer.batch_size (ReplayBuffer.add b e) = ReplayBuffer.batch_size b.
Proof. unfold ReplayBuffer.add. destruct (Nat.eqb _ _); reflexivity. Qed.

Lemma learn_trace_head (exps : list (option Experience.t)) (s : agent) :
  exists rest, trace (snd (learn nets exps s)) = trace s ++ Learn exps :: rest.
Proof.
  rewrite learn_unfold. cbv zeta.
  destruct (Np.vstack (map Experience.state _)); [exists []; reflexivity|].
  destruct (array_reshape _ _); [exists []; reflexivity|].
  destruct (Np.vstack (map Experience.next_state _)); [exists []; reflexivity|].
  destruct (td_targets _ _ _ _); [exists []; reflexivity|].
  destruct (Np.reshape_rows _ _).
  { eexists. cbn [snd]. rewrite !trace_record, !trace_set_net, !trace_record.
    rewrite <- !app_assoc. reflexivity. }
  match goal with |- context [soft_update nets ?l ?t ?tau ?s3] =>
    destruct (soft_update_trace l t tau s3) as (new1 & Ht1 & _);
    destruct (soft_update nets l t tau s3) as [[e|u] s4] end.
  { eexists. cbn [snd] in *. rewrite Ht1.
    rewrite !trace_set_net, !trace_record, !trace_set_net, !trace_record.
    rewrite <- !app_assoc. reflexivity. }
  destruct (soft_update_trace ActorLocal ActorTarget (tau_actor s4) s4)
    as (new2 & Ht2 & _).
  eexists. cbn [snd] in *. rewrite Ht2, Ht1.
  rewrite !trace_set_net, !trace_record, !trace_set_net, !trace_record.
  rewrite <- !app_assoc. reflexivity.
Qed.

(** C6.  On inputs whose two states can be normalised, [step] stores the
    transition made of the normalised states; then, if the memory now holds
    more than [batch_size] transitions, it draws one batch of [batch_size]
    and calls [learn] on it, and otherwise it returns at once, having called
    [learn] not at all and written no network. *)
Theorem step_gates_learning (s : agent) (state action : Np.vec) (reward : Q)
    (next_state : Np.vec) (done : bool) (rnd : nat -> nat)
    (state' next_state' : Np.vec) :
  ReplayBuffer.batch_size (memory s) = batch_size s ->
  preprocess_state state s = (inr state', s) ->
  preprocess_state next_state s = (inr next_state', s) ->
  exists kept new,
    let e := Experience.mk state' action reward next_state' done in
    let s1 := stored e s in
    let r := step nets state action reward next_state done rnd s in
    ReplayBuffer.memory (memory s1) = kept ++ [e] /\
    trace (snd r) = trace s ++ MemoryAdd e :: new /\
    ((exists experiences, In (Learn experiences) new) <->
     (batch_size s < ReplayBuffer.len (memory s1))%nat) /\
    ((batch_size s < ReplayBuffer.len (memory s1))%nat ->
     exists experiences,
       ReplayBuffer.sample (memory s1) rnd = inr experiences /\
       length experiences = batch_size s /\
       r = learn nets experiences (record (MemorySample experiences) s1)) /\
    ((ReplayBuffer.len (memory s1) <= batch_size s)%nat ->
     r = (inr tt, s1) /\ forall n, get_net n (snd r) = get_net n s).
Proof.
  intros Hb Hst Hns.
  rewrite preprocess_state_pure in Hst, Hns.
  injection Hst as Hst. injection Hns as Hns.
  rewrite step_unfold, Hst, Hns. cbv zeta.
  set (e := Experience.mk state' action reward next_state' done).
  set (s1 := stored e s).
  destruct (add_appends (memory s) e) as [kept Hkept].
  exists kept.
  destruct (Nat.ltb (batch_size s) (ReplayBuffer.len (memory s1))) eqn:Hgate.
  - apply Nat.ltb_lt in Hgate.
    assert (Hok : exists experiences,
               ReplayBuffer.sample (memory s1) rnd = inr experiences /\
               length experiences = batch_size s).
    { unfold ReplayBuffer.sample. subst s1. cbn [stored memory set_memory] in *.
      rewrite add_batch_size, Hb.
      assert (Hleb : Nat.leb (ReplayBuffer.len (ReplayBuffer.add (memory s) e))
                             (batch_size s) = false) by (apply Nat.leb_gt; lia).
      rewrite Hleb. eexists. split; [reflexivity|].
      now rewrite length_map, length_seq. }
    destruct Hok as (exps & Hsample & Hlen). rewrite Hsample.
    destruct (learn_trace_head exps (record (MemorySample exps) s1)) as [rest Ht].
    exists (MemorySample exps :: Learn exps :: rest).
    repeat split.
    + exact Hkept.
    + rewrite Ht. subst s1. unfold stored.
      rewrite !trace_record. cbn [trace set_memory record].
      rewrite <- !app_assoc. reflexivity.
    + intros _. exact Hgate.
    + intros _. exists exps. simpl. auto.
    + intros _. exists exps. auto.
    + lia.
    + lia.
  - apply Nat.ltb_ge in Hgate.
    exists []. repeat split.
    + exact Hkept.
    + intros [exps []].
    + lia.
    + lia.
Qed.

(** *** The networks' shapes along a run *)

Lemma arch_record ev s n : arch (record ev s) n = arch s n.
Proof. unfold arch. now rewrite get_net_record. Qed.

Lemma arch_set_net_other n n' m s :
  n' <> n -> arch (set_net n m s) n' = arch s n'.
Proof. intros H. unfold arch. now rewrite get_net_set_net_other. Qed.

Lemma arch_set_net_same n m s :
  arch (set_net n m s) n = Keras.shapes (Keras.get_weights m).
Proof. unfold arch. now rewrite get_net_set_net_same. Qed.

Lemma net_eq_dec (a b : net) : {a = b} + {a <> b}.
Proof. decide equality. Qed.

Lemma arch_set_net n m s :
  Keras.shapes (Keras.get_weights m) = arch s n ->
  forall n', arch (set_net n m s) n' = arch s n'.
Proof.
  intros H n'. destruct (net_eq_dec n' n) as [->|Hne].
  - now rewrite arch_set_net_same.
  - now apply arch_set_net_other.
Qed.

Lemma set_weights_shapes (m m' : Keras.model) (ws : list Np.ndarray) :
  Keras.set_weights m ws = inr m' ->
  Keras.get_weights m' = ws /\
  Keras.shapes (Keras.get_weights m') = Keras.shapes (Keras.get_weights m).
Proof.
  intros H. pose proof (set_weights_inv _ _ _ H) as Hsh.
  destruct (set_weights_ok m ws Hsh) as (m'' & Hset & Hw & _).
  unfold ok in Hset. assert (m'' = m') by congruence. subst m''.
  split; congruence.
Qed.

Lemma soft_update_arch (l t : net) (tau : Q) (s : agent) (n : net) :
  arch (snd (soft_update nets l t tau s)) n = arch s n.
Proof.
  destruct (soft_update_events l t tau s)
    as [[e He] | (w & m & _ & Hm & He)]; rewrite He; cbn [snd].
  - apply arch_record.
  - rewrite arch_set_net; rewrite ?arch_record; [reflexivity|].
    apply set_weights_shapes in Hm. unfold arch. apply Hm.
Qed.

(** The exceptions of the array operations are value errors. *)

Lemma broadcast1_error {A B C} (f : A -> B -> C) xs ys e :
  Np.broadcast1 f xs ys = inl e -> e = ValueError.
Proof.
  unfold Np.broadcast1, ok, throw. destruct (Nat.eqb _ _); [discriminate|].
  destruct xs as [|x [|x' xs]]; destruct ys as [|y [|y' ys]]; congruence.
Qed.

Lemma binop_error (f : Q -> Q -> Q) (x y : Np.ndarray) (e : exn) :
  Np.binop f x y = inl e -> e = ValueError.
Proof.
  unfold Np.binop, ok, throw. destruct (Np.shape_eqb _ _); [discriminate|].
  destruct (Np.broadcast_shapes _ _); congruence.
Qed.

Lemma rmapM_id_error {A} (rs : list (result A)) (e : exn) :
  rmapM (fun r => r) rs = inl e -> In (inl e) rs.
Proof.
  induction rs as [|r rs IH]; simpl; [discriminate|].
  destruct r as [e'|a]; cbn [rbind].
  - intros H. left. congruence.
  - destruct (rmapM (fun r => r) rs); cbn [rbind ok]; [|discriminate].
    intros H. right. apply IH. congruence.
Qed.

Lemma zip_with_elements {A B C} (f : A -> B -> C) xs ys z :
  In z (Np.zip_with f xs ys) -> exists x y, z = f x y.
Proof.
  revert ys. induction xs as [|x xs IH]; intros [|y ys]; simpl; try tauto.
  intros [<-|H]; eauto.
Qed.

Lemma broadcast1_elements {A B C} (f : A -> B -> C) xs ys zs z :
  Np.broadcast1 f xs ys = inr zs -> In z zs -> exists x y, z = f x y.
Proof.
  unfold Np.broadcast1, ok, throw. destruct (Nat.eqb _ _).
  - intros H Hin. injection H as <-. eapply zip_with_elements, Hin.
  - destruct xs as [|x [|x' xs]]; destruct ys as [|y [|y' ys]];
      intros H Hin; try discriminate; injection H as <-;
      simpl in Hin;
      repeat match type of Hin with
             | _ \/ _ => destruct Hin as [<-|Hin]; [eauto|]
             end;
      try contradiction;
      apply in_map_iff in Hin; destruct Hin as (? & <- & _); eauto.
Qed.

Lemma wadd_error (x y : Np.warray) (e : exn) :
  Np.wadd x y = inl e -> e = ValueError.
Proof.
  destruct x as [a|xs], y as [b|ys]; cbn [Np.wadd]; unfold throw.
  - destruct (Np.binop Qplus a b) eqn:Hb; cbn [rbind]; [|discriminate].
    intros [= <-]. eapply binop_error, Hb.
  - destruct (Np.shape a) as [|? [|]]; try (now intros [= <-]).
    destruct (Np.broadcast1 _ _ _) eqn:Hb; cbn [rbind]; [|discriminate].
    intros [= <-]. eapply broadcast1_error, Hb.
  - destruct (Np.shape b) as [|? [|]]; try (now intros [= <-]).
    destruct (Np.broadcast1 _ _ _) eqn:Hb; cbn [rbind]; [|discriminate].
    intros [= <-]. eapply broadcast1_error, Hb.
  - destruct (Np.broadcast1 _ xs ys) as [e'|rs] eqn:Hb; cbn [rbind].
    + intros [= <-]. eapply broadcast1_error, Hb.
    + destruct (rmapM _ rs) as [e'|zs] eqn:Hr; cbn [rbind]; [|discriminate].
      intros [= <-]. apply rmapM_id_error in Hr.
      destruct (broadcast1_elements _ _ _ _ _ Hb Hr) as (x & y & Hxy).
      symmetry in Hxy. eapply binop_error, Hxy.
Qed.

Lemma set_weights_error (m : Keras.model) (ws : list Np.ndarray) (e : exn) :
  Keras.set_weights m ws = inl e -> e = ValueError.
Proof.
  unfold Keras.set_weights, ok, throw.
  destruct (list_eq_dec _ _ _); congruence.
Qed.

(** The interpolation fails with a value error, or else with an assertion
    error on two arrays of different lengths. *)
Lemma new_weights_error (v : Np.version) (tau : Q) (lw tw : list Np.ndarray)
    (e : exn) :
  new_weights v tau lw tw = inl e ->
  e = ValueError \/
  (e = AssertionError /\ length lw <> length tw /\
   buildable v lw /\ buildable v tw).
Proof.
  unfold new_weights, buildable, rbind, throw.
  destruct (Np.array v lw) as [e'|a] eqn:Ha.
  { intros [= <-]. left. eapply array_error, Ha. }
  destruct (Np.array v tw) as [e'|b] eqn:Hb.
  { intros [= <-]. left. eapply array_error, Hb. }
  rewrite (array_len _ _ _ Ha), (array_len _ _ _ Hb).
  destruct (Nat.eqb _ _) eqn:Hlen.
  - destruct (Np.wadd _ _) as [e'|c] eqn:Hw; [|discriminate].
    intros [= <-]. left. eapply wadd_error, Hw.
  - intros [= <-]. right. apply Nat.eqb_neq in Hlen.
    repeat split; eauto.
Qed.

Lemma soft_update_error (l t : net) (tau : Q) (s : agent) (e : exn) :
  fst (soft_update nets l t tau s) = inl e ->
  e = ValueError \/
  (e = AssertionError /\
   length (Keras.get_weights (get_net l s)) <>
   length (Keras.get_weights (get_net t s)) /\
   buildable (numpy nets) (Keras.get_weights (get_net l s)) /\
   buildable (numpy nets) (Keras.get_weights (get_net t s))).
Proof.
  rewrite soft_update_unfold. cbv zeta.
  destruct (new_weights _ _ _ _) as [e'|nw] eqn:Hn; cbn [fst].
  - intros [= <-]. eapply new_weights_error, Hn.
  - destruct (Keras.set_weights _ _) as [e'|m] eqn:Hs; cbn [fst]; [|discriminate].
    intros [= <-]. left. eapply set_weights_error, Hs.
Qed.

(** Between two networks of the same weight shapes the size assertion
    holds. *)
Lemma soft_update_same_arch (l t : net) (tau : Q) (s : agent) :
  arch s l = arch s t ->
  fst (soft_update nets l t tau s) <> inl AssertionError.
Proof.
  intros Hsh H. apply soft_update_error in H.
  destruct H as [H|(_ & Hlen & _)]; [discriminate|].
  apply Hlen. unfold arch, Keras.shapes in Hsh.
  apply (f_equal (@length _)) in Hsh. now rewrite !length_map in Hsh.
Qed.

Lemma vstack_error rows e : Np.vstack rows = inl e -> e = ValueError.
Proof.
  unfold Np.vstack, ok, throw. destruct rows; [congruence|].
  destruct (forallb _ _); congruence.
Qed.

Lemma reshape_rows_error k d e : Np.reshape_rows k d = inl e -> e = ValueError.
Proof.
  unfold Np.reshape_rows, ok, throw. destruct k; [congruence|].
  destruct (Nat.eqb _ _); congruence.
Qed.

Lemma array_reshape_error k rows e :
  array_reshape k rows = inl e -> e = ValueError.
Proof.
  unfold array_reshape, throw. destruct rows.
  - apply reshape_rows_error.
  - destruct (forallb _ _); [apply reshape_rows_error | congruence].
Qed.

Lemma td_targets_error g rewards qn dones e :
  td_targets g rewards qn dones = inl e -> e = ValueError.
Proof.
  unfold td_targets, Np.add.
  destruct (Np.broadcast1 Qmult _ _) eqn:H; cbn [rbind].
  - intros H'. injection H' as <-. eapply broadcast1_error, H.
  - apply broadcast1_error.
Qed.

Lemma normalize_error low range state e :
  normalize low range state = inl e -> e = ValueError.
Proof.
  unfold normalize, Np.sub, Np.div.
  destruct (Np.broadcast1 Qminus _ _) eqn:H; cbn [rbind].
  - intros H'. injection H' as <-. eapply broadcast1_error, H.
  - destruct (Np.broadcast1 Qdiv _ _) eqn:H'; cbn [rbind ok].
    + intros H''. injection H'' as <-. eapply broadcast1_error, H'.
    + discriminate.
Qed.

(** [act] writes the noise process and nothing else. *)
Lemma act_frame (state normal : Np.vec) (s : agent) (n : net) :
  get_net n (snd (act nets state normal s)) = get_net n s.
Proof.
  unfold act. unfold bind at 1. rewrite preprocess_state_pure.
  destruct (normalize _ _ _); [reflexivity|].
  cbv [bind gets lift modify ret ok].
  destruct (Np.reshape_rows _ _); [reflexivity|].
  destruct (first _); [reflexivity|].
  destruct (OUNoise.sample _ _) as [e|[x n']]; [reflexivity|].
  cbn [snd fst].
  destruct (rbind _ _); destruct n; reflexivity.
Qed.

Section ShapePreservingTraining.

(** Training moves the numbers of a model, not its shapes. *)
Hypothesis critic_training_keeps_shapes : forall m states actions y,
  Keras.shapes (Keras.get_weights (critic_train_on_batch nets m states actions y)) =
  Keras.shapes (Keras.get_weights m).
Hypothesis actor_training_keeps_shapes : forall m states grads,
  Keras.shapes (Keras.get_weights (actor_train_fn nets m states grads)) =
  Keras.shapes (Keras.get_weights m).

Lemma learn_arch (exps : list (option Experience.t)) (s : agent) (n : net) :
  arch (snd (learn nets exps s)) n = arch s n.
Proof.
  rewrite learn_unfold. cbv zeta.
  destruct (Np.vstack (map Experience.state _)) as [e|states];
    [apply arch_record|].
  destruct (array_reshape _ _) as [e|actions]; [apply arch_record|].
  destruct (Np.vstack (map Experience.next_state _)); [apply arch_record|].
  destruct (td_targets _ _ _ _) as [e|Y]; [apply arch_record|].
  assert (H1 : forall n',
    arch (set_net CriticLocal
            (critic_train_on_batch nets (critic_local s) states actions Y)
            (record (TrainOnBatch states actions Y) (record (Learn exps) s))) n' =
    arch s n').
  { intros n'. rewrite arch_set_net; rewrite ?arch_record; [reflexivity|].
    apply critic_training_keeps_shapes. }
  destruct (Np.reshape_rows _ _) as [e|grads].
  { cbn [snd]. rewrite arch_record. apply H1. }
  match goal with |- context [soft_update nets CriticLocal CriticTarget _ ?s3] =>
    assert (H3 : forall n', arch s3 n' = arch s n') end.
  { intros n'. rewrite arch_set_net; rewrite ?arch_record.
    - apply H1.
    - rewrite H1. apply actor_training_keeps_shapes. }
  match goal with |- context [soft_update nets ?l ?t ?tau ?s3] =>
    pose proof (soft_update_arch l t tau s3) as H4;
    destruct (soft_update nets l t tau s3) as [[e|u] s4] end; cbn [snd] in *.
  - now rewrite H4.
  - now rewrite soft_update_arch, H4.
Qed.

Lemma learn_never_asserts (exps : list (option Experience.t)) (s : agent) :
  matched s -> fst (learn nets exps s) <> inl AssertionError.
Proof.
  intros [Hc Ha]. rewrite learn_unfold. cbv zeta.
  destruct (Np.vstack (map Experience.state _)) as [e|states] eqn:E1.
  { apply vstack_error in E1. subst. discriminate. }
  destruct (array_reshape _ _) as [e|actions] eqn:E2.
  { apply array_reshape_error in E2. subst. discriminate. }
  destruct (Np.vstack (map Experience.next_state _)) as [e|ns] eqn:E3.
  { apply vstack_error in E3. subst. discriminate. }
  destruct (td_targets _ _ _ _) as [e|Y] eqn:E4.
  { apply td_targets_error in E4. subst. discriminate. }
  destruct (Np.reshape_rows _ _) as [e|grads] eqn:E5.
  { apply reshape_rows_error in E5. subst. discriminate. }
  match goal with |- context [soft_update nets CriticLocal CriticTarget ?tau ?s3] =>
    pose proof (soft_update_same_arch CriticLocal CriticTarget tau s3) as H1;
    pose proof (soft_update_arch CriticLocal CriticTarget tau s3) as A1;
    destruct (soft_update nets CriticLocal CriticTarget tau s3) as [[e|u] s4]
  end; cbn [fst snd] in *.
  { intros [= ->]. apply H1; [|reflexivity].
    unfold arch. cbn [get_net critic_local critic_target set_net record].
    rewrite critic_training_keeps_shapes. exact Hc. }
  match goal with |- context [soft_update nets ActorLocal ActorTarget ?tau s4] =>
    pose proof (soft_update_same_arch ActorLocal ActorTarget tau s4) as H2;
    destruct (soft_update nets ActorLocal ActorTarget tau s4) as [[e|u'] s5]
  end; cbn [fst snd] in *; [|discriminate].
  intros [= ->]. apply H2; [|reflexivity].
  rewrite !A1. unfold arch.
  cbn [get_net actor_local actor_target set_net record].
  rewrite actor_training_keeps_shapes. exact Ha.
Qed.

Lemma step_arch state action reward next_state done rnd (s : agent) (n : net) :
  arch (snd (step nets state action reward next_state done rnd s)) n = arch s n.
Proof.
  rewrite step_unfold.
  destruct (normalize _ _ state); [reflexivity|].
  destruct (normalize _ _ next_state); [reflexivity|].
  cbv zeta.
  assert (Hs : forall e, arch (stored e s) n = arch s n).
  { intros e. unfold arch. destruct n; reflexivity. }
  destruct (Nat.ltb _ _); [|apply Hs].
  destruct (ReplayBuffer.sample _ _); [apply Hs|].
  now rewrite learn_arch, arch_record.
Qed.

Lemma run_call_arch (c : call) (s : agent) (n : net) :
  arch (run_call nets c s) n = arch s n.
Proof.
  destruct c; cbn [run_call].
  - unfold arch. destruct n; reflexivity.
  - unfold arch. now rewrite act_frame.
  - apply step_arch.
Qed.

Lemma run_calls_arch (cs : list call) (s : agent) (n : net) :
  arch (run_calls nets cs s) n = arch s n.
Proof.
  revert s. induction cs as [|c cs IH]; intros s; [reflexivity|].
  cbn [run_calls fold_left]. fold (run_calls nets cs (run_call nets c s)).
  now rewrite IH, run_call_arch.
Qed.

Lemma init_inv (task : Task.t) (al at_ cl ct : Keras.model) (s0 : agent) :
  init task al at_ cl ct = inr s0 ->
  actor_local s0 = al /\ critic_local s0 = cl /\
  Keras.set_weights ct (Keras.get_weights cl) = inr (critic_target s0) /\
  Keras.set_weights at_ (Keras.get_weights al) = inr (actor_target s0) /\
  trace s0 = [] /\
  ReplayBuffer.batch_size (memory s0) = batch_size s0.
Proof.
  unfold init. intros H.
  repeat (apply rbind_ok_inv in H; destruct H as (? & ? & H)).
  unfold ok in H. injection H as <-. cbn. repeat split; assumption.
Qed.

(** C10.  In an agent as [__init__] returns it, the target critic's weights
    are the local critic's weights and the target actor's weights are the
    local actor's weights.  Hence each target has the number and shapes of
    weights of its local network, and keeps them through every later call
    of [reset], [act] and [step]: in no state the agent reaches can the
    size assertion of [soft_update] fail in a call of [learn]. *)
Theorem init_targets_copy_locals (task : Task.t)
    (new_actor_local new_actor_target new_critic_local new_critic_target
       : Keras.model) (s0 : agent) :
  init task new_actor_local new_actor_target new_critic_local new_critic_target
    = inr s0 ->
  Keras.get_weights (critic_target s0) = Keras.get_weights (critic_local s0) /\
  Keras.get_weights (actor_target s0) = Keras.get_weights (actor_local s0) /\
  forall calls,
    matched (run_calls nets calls s0) /\
    forall experiences,
      fst (learn nets experiences (run_calls nets calls s0))
      <> inl AssertionError.
Proof.
  intros H. apply init_inv in H.
  destruct H as (Hal & Hcl & Hct & Hat & _).
  apply set_weights_shapes in Hct, Hat.
  destruct Hct as [Hct _], Hat as [Hat _].
  assert (Hw : Keras.get_weights (critic_target s0) =
               Keras.get_weights (critic_local s0) /\
               Keras.get_weights (actor_target s0) =
               Keras.get_weights (actor_local s0)).
  { rewrite Hct, Hat, Hal, Hcl. auto. }
  destruct Hw as [Hwc Hwa].
  split; [exact Hwc|]. split; [exact Hwa|].
  intros calls.
  assert (Hm : matched (run_calls nets calls s0)).
  { unfold matched. rewrite !run_calls_arch. unfold arch. cbn [get_net].
    rewrite Hwc, Hwa. auto. }
  split; [exact Hm|].
  intros experiences. apply learn_never_asserts, Hm.
Qed.

End ShapePreservingTraining.

End Properties.

(** ** Concrete runs *)

Lemma init_mountain_car :
  init Example.mountain_car Example.actor_a Example.actor_b
       Example.critic_a Example.critic_b = ok Example.agent0.
Proof. reflexivity. Qed.

(** The normalisation of the mountain car's state (-0.3, 0.07). *)
Lemma preprocess_state_affine_witness :
  exists y y_low y_high,
    preprocess_state [-0.3; 0.07] Example.agent0 = (ok y, Example.agent0) /\
    Forall2 Qeq y (preprocess_state_spec [-1.2; -0.07] [0.6; 0.07] [-0.3; 0.07]) /\
    (Forall2 Qle [-1.2; -0.07] [-0.3; 0.07] -> Forall2 Qle [-0.3; 0.07] [0.6; 0.07] ->
     Forall (fun c => -1 <= c /\ c <= 1) y) /\
    preprocess_state [-1.2; -0.07] Example.agent0 = (ok y_low, Example.agent0) /\
    length y_low = 2%nat /\
    Forall (fun c => c == -1) y_low /\
    preprocess_state [0.6; 0.07] Example.agent0 = (ok y_high, Example.agent0) /\
    length y_high = 2%nat /\
    Forall (fun c => c == 1) y_high.
Proof.
  apply (preprocess_state_affine Example.agent0 [-0.3; 0.07]).
  - reflexivity.
  - repeat constructor.
  - reflexivity.
Defined.

(** A large noise draw: the damped action plus the noise sample is 1.95,
    and the action handed back is the upper bound 1. *)
Lemma act_within_bounds_witness :
  within [-1] [1] [1].
Proof.
  refine (proj2 (act_within_bounds Example.linear Example.agent0 _
                   [-0.3; 0.07] [8] [1] _ _ _)).
  - repeat constructor. discriminate.
  - lazy. reflexivity.
Defined.

(** A soft update of the critic target half-way toward a local critic that
    has moved. *)
Lemma soft_update_interpolates_witness :
  exists s',
    soft_update Example.linear CriticLocal CriticTarget 0.5 Example.agent1 = (ok tt, s') /\
    Keras.get_weights (critic_target s') =
      soft_update_spec 0.5 (Keras.get_weights Example.critic_b)
                           (Keras.get_weights Example.critic_a).
Proof.
  destruct (soft_update_interpolates Example.linear
              CriticLocal CriticTarget 0.5 Example.agent1
              (Keras.get_weights Example.critic_b)
              (Keras.get_weights Example.critic_a))
    as (s' & Hrun & Hw & _).
  - reflexivity.
  - reflexivity.
  - reflexivity.
  - repeat constructor.
  - repeat constructor.
  - eexists. split; reflexivity.
  - exists s'. split; assumption.
Defined.

Lemma soft_update_preserves_local_witness :
  get_net CriticLocal
    (snd (soft_update Example.linear CriticLocal CriticTarget 0.5 Example.agent1)) =
  Example.critic_b.
Proof.
  assert (Hne : CriticLocal <> CriticTarget) by discriminate.
  exact (proj1 (soft_update_preserves_local Example.linear
                  CriticLocal CriticTarget 0.5 Example.agent1 Hne)).
Defined.

(** C2, where the code departs from it.  On a local and a target network of
    the same parameter shapes [soft_update] can raise instead of
    interpolating: [np.array] on line 126 raises a value error, whatever
    [tau], and the target keeps its weights.  On numpy from 1.24 on this
    happens to the mountain car's critics, whose kernel has shape (3, 1) and
    whose bias has shape (1); on either numpy it happens to actors of two
    units on two inputs, whose kernel has shape (2, 2) and whose bias has
    shape (2), so that with [tau = 1] the target does not become the local
    actor. *)
Theorem soft_update_raises_on_matching_shapes (tau : Q) :
  (Keras.shapes (Keras.get_weights (critic_local Example.agent1)) =
   Keras.shapes (Keras.get_weights (critic_target Example.agent1)) /\
   soft_update (Example.linear_on Np.Strict) CriticLocal CriticTarget tau
               Example.agent1 =
   (inl ValueError,
    record (SoftUpdate CriticLocal CriticTarget tau) Example.agent1)) /\
  (forall v,
     Keras.shapes (Keras.get_weights (actor_local Cases.agent_square)) =
     Keras.shapes (Keras.get_weights (actor_target Cases.agent_square)) /\
     soft_update (Example.linear_on v) ActorLocal ActorTarget tau
                 Cases.agent_square =
     (inl ValueError,
      record (SoftUpdate ActorLocal ActorTarget tau) Cases.agent_square) /\
     ~ same_weights
         (Keras.get_weights
            (actor_target
               (snd (soft_update (Example.linear_on v) ActorLocal ActorTarget
                                 tau Cases.agent_square))))
         (Keras.get_weights (actor_local Cases.agent_square))).
Proof.
  split; [split; reflexivity|].
  intros v.
  assert (H : soft_update (Example.linear_on v) ActorLocal ActorTarget tau
                          Cases.agent_square =
              (inl ValueError,
               record (SoftUpdate ActorLocal ActorTarget tau) Cases.agent_square))
    by (destruct v; reflexivity).
  split; [reflexivity|]. split; [exact H|].
  rewrite H. cbn [snd]. intros Hs.
  inversion Hs as [|? ? ? ? [_ Hd] _]; subst.
  inversion Hd as [|? ? ? ? Hq _]; subst.
  discriminate Hq.
Qed.

(** C8, as stated, fails.  A target whose variables are named differently
    from the local model's is updated all the same, and so is a target whose
    tensor has another shape than the local model's when numpy can stretch
    one onto the other: both calls return and have overwritten the target. *)
Lemma soft_update_accepts_divergent_parameters :
  (map Keras.var_name (Keras.variables (actor_local Example.agent_renamed)) <>
   map Keras.var_name (Keras.variables (actor_target Example.agent_renamed)) /\
   fst (soft_update Example.linear ActorLocal ActorTarget 0.1 Example.agent_renamed) = inr tt /\
   Keras.get_weights (actor_target Example.agent_renamed) =
     [Np.mk_ndarray [2%nat; 1%nat] [0.75; 0.125]; Np.mk_ndarray [1%nat] [0.1]] /\
   same_weights
     (Keras.get_weights
        (actor_target (snd (soft_update Example.linear ActorLocal ActorTarget 0.1
                              Example.agent_renamed))))
     [Np.mk_ndarray [2%nat; 1%nat] [0.725; 0.0875]; Np.mk_ndarray [1%nat] [0.09]]) /\
  (Keras.shapes (Keras.get_weights (actor_local Example.agent_reshaped)) <>
   Keras.shapes (Keras.get_weights (actor_target Example.agent_reshaped)) /\
   fst (soft_update Example.linear ActorLocal ActorTarget 0.1 Example.agent_reshaped) = inr tt /\
   Keras.get_weights (actor_target Example.agent_reshaped) =
     [Np.mk_ndarray [3%nat] [1; 2; 3]] /\
   same_weights
     (Keras.get_weights
        (actor_target (snd (soft_update Example.linear ActorLocal ActorTarget 0.1
                              Example.agent_reshaped))))
     [Np.mk_ndarray [3%nat] [1.1; 2; 2.9]]).
Proof.
  repeat split; try discriminate; repeat constructor.
Qed.

(** A target critic one tensor short of the local critic. *)
Lemma soft_update_rejects_size_mismatch_witness :
  fst (soft_update Example.linear CriticLocal CriticTarget 0.5 Example.agent_short) =
    inl AssertionError /\
  critic_target (snd (soft_update Example.linear CriticLocal CriticTarget 0.5 Example.agent_short)) =
    Example.critic_short.
Proof.
  destruct (soft_update_rejects_size_mismatch Example.linear
              CriticLocal CriticTarget 0.5 Example.agent_short)
    as (Hraise & Hframe & _).
  destruct Hraise as [_ Hiff]; [discriminate|].
  assert (H : fst (soft_update Example.linear CriticLocal CriticTarget 0.5 Example.agent_short) =
              inl AssertionError).
  { apply Hiff. split; eexists; reflexivity. }
  split; [exact H|]. exact (Hframe _ H CriticTarget).
Defined.

(** A call of [learn] that returns, on a batch with a terminal transition. *)
Lemma learn_order_witness :
  exists states actions Q_targets grads w_critic w_actor,
    let s' := snd (learn Example.linear Example.batch Example.agent1) in
    trace s' =
      [Learn Example.batch;
       TrainOnBatch states actions Q_targets;
       GetActionGradients (Keras.get_weights (critic_local s')) states actions;
       TrainFn states grads;
       SoftUpdate CriticLocal CriticTarget 0.5;
       SetWeights CriticTarget w_critic;
       SoftUpdate ActorLocal ActorTarget 0.1;
       SetWeights ActorTarget w_actor] /\
    critic_local s' =
      critic_train_on_batch Example.linear Example.critic_b states actions Q_targets /\
    actor_local s' =
      actor_train_fn Example.linear Example.actor_a states grads.
Proof.
  destruct (proj2 (learn_order Example.linear Example.agent1 Example.batch))
    as (states & actions & Y & grads & w1 & w2 & Ht & Hc & _ & Ha & _).
  - reflexivity.
  - exists states, actions, Y, grads, w1, w2. cbv zeta. repeat split; assumption.
Defined.

(** Three stored transitions and batches of two. *)
Lemma sample_precondition_witness :
  ReplayBuffer.sample (ReplayBuffer.mk 5 2 [Example.e1; Example.e2]) (fun k => k)
    = inl InsufficientDataError /\
  exists experiences,
    ReplayBuffer.sample Example.small_memory (fun k => k) = inr experiences /\
    length experiences = 2%nat.
Proof.
  split.
  - apply (proj1 (sample_precondition
                    (ReplayBuffer.mk 5 2 [Example.e1; Example.e2]) (fun k => k))).
    apply Nat.leb_le. reflexivity.
  - destruct (proj2 (sample_precondition Example.small_memory (fun k => k)))
      as (experiences & Hs & Hl & _).
    + reflexivity.
    + exists experiences. split; assumption.
Defined.

(** A third transition reaches an agent with batches of two: the step
    learns. *)
Lemma step_gates_learning_witness :
  exists experiences,
    length experiences = 2%nat /\
    In (Learn experiences)
       (trace (snd (step Example.linear [-0.3; 0.07] [0.5] (-1) [-0.2; 0.06]
                         false (fun k => k) Example.agent_small))).
Proof.
  destruct (step_gates_learning Example.linear Example.agent_small
              [-0.3; 0.07] [0.5] (-1) [-0.2; 0.06] false (fun k => k)
              _ _ eq_refl eq_refl eq_refl)
    as (kept & new & _ & Ht & _ & Hlearn & _).
  destruct Hlearn as (experiences & Hs & Hl & Hr).
  - apply Nat.ltb_lt. reflexivity.
  - exists experiences. split; [exact Hl|].
    rewrite Hr.
    match goal with |- In _ (trace (snd (learn ?n ?e ?s))) =>
      destruct (learn_trace_head n e s) as [rest Hrest] end.
    rewrite Hrest. apply in_or_app. right. left. reflexivity.
Defined.

Lemma nudge_keeps_shapes (c : Q) (m : Keras.model) :
  Keras.shapes (Keras.get_weights (Example.nudge c m)) =
  Keras.shapes (Keras.get_weights m).
Proof.
  unfold Keras.shapes, Keras.get_weights, Example.nudge.
  cbn [Keras.variables]. rewrite !map_map. reflexivity.
Qed.

(** The mountain-car agent, and what four calls make of it. *)
Lemma init_targets_copy_locals_witness :
  Keras.get_weights (critic_target Example.agent0) =
    Keras.get_weights Example.critic_a /\
  Keras.get_weights (actor_target Example.agent0) =
    Keras.get_weights Example.actor_a /\
  matched (run_calls Example.linear
             [CallReset; CallAct [-0.3; 0.07] [8];
              CallStep [-0.3; 0.07] [1] (-1) [-0.2; 0.06] false (fun k => k);
              CallAct [-0.2; 0.06] [-3]]
             Example.agent0).
Proof.
  destruct (init_targets_copy_locals Example.linear
              (fun m _ _ y => nudge_keeps_shapes _ m)
              (fun m _ grads => nudge_keeps_shapes _ m)
              Example.mountain_car Example.actor_a Example.actor_b
              Example.critic_a Example.critic_b Example.agent0 eq_refl)
    as (Hc & Ha & Hcalls).
  split; [exact Hc|]. split; [exact Ha|]. apply Hcalls.
Defined.

(** The targets of the example batch: the terminal transition's target is
    its reward, 100. *)
Lemma learn_td_targets_witness :
  exists states actions y1 y2,
    In (TrainOnBatch states actions [y1; y2])
       (trace (snd (learn Example.linear Example.batch Example.agent1))) /\
    y1 == td_target_spec Example.linear Example.agent1 Example.e1 /\
    y2 == 100.
Proof.
  destruct (learn_td_targets Example.linear Example.agent1 Example.batch)
    as (new & Ht & Hy & Hret).
  destruct (Hret eq_refl) as (states & actions & y & Hin).
  pose proof (Hy _ _ _ Hin) as HF.
  inversion HF as [|e1 y1 es ys [H1 _] HF']; subst.
  inversion HF' as [|e2 y2 es' ys' [_ H2] HF'']; subst.
  inversion HF''; subst.
  exists states, actions, y1, y2. rewrite Ht. repeat split.
  - exact Hin.
  - exact H1.
  - apply H2. reflexivity.
Defined.

(** ** Further properties of the agent's methods *)

Section Frames.

Variable nets : networks.

Lemma soft_update_rest (l t : net) (tau : Q) (s : agent) :
  rest_of (snd (soft_update nets l t tau s)) = rest_of s.
Proof.
  destruct (soft_update_events nets l t tau s)
    as [[e He] | (w & m & _ & _ & He)]; rewrite He; reflexivity.
Qed.

Lemma learn_rest (exps : list (option Experience.t)) (s : agent) :
  rest_of (snd (learn nets exps s)) = rest_of s.
Proof.
  rewrite learn_unfold. cbv zeta.
  destruct (Np.vstack (map Experience.state _)); [reflexivity|].
  destruct (array_reshape _ _); [reflexivity|].
  destruct (Np.vstack (map Experience.next_state _)); [reflexivity|].
  destruct (td_targets _ _ _ _); [reflexivity|].
  destruct (Np.reshape_rows _ _); [reflexivity|].
  match goal with |- context [soft_update nets ?l ?t ?tau ?s3] =>
    pose proof (soft_update_rest l t tau s3) as H1;
    destruct (soft_update nets l t tau s3) as [[e|u] s4] end; cbn [snd] in *.
  - exact H1.
  - now rewrite soft_update_rest, H1.
Qed.

Lemma rest_of_memory (s s' : agent) : rest_of s' = rest_of s -> memory s' = memory s.
Proof. unfold rest_of. intros H. now injection H. Qed.

Lemma rest_of_noise (s s' : agent) : rest_of s' = rest_of s -> noise s' = noise s.
Proof. unfold rest_of. intros H. now injection H. Qed.

Lemma rest_of_batch_size (s s' : agent) :
  rest_of s' = rest_of s -> batch_size s' = batch_size s.
Proof. unfold rest_of. intros H. now injection H. Qed.

(** X1.  [learn] writes the networks and nothing else: the replay memory,
    the noise process, the bounds and the hyperparameters are the same after
    the call, whether it returns or raises. *)
Theorem learn_writes_networks_only (exps : list (option Experience.t)) (s : agent) :
  rest_of (snd (learn nets exps s)) = rest_of s /\
  memory (snd (learn nets exps s)) = memory s /\
  noise (snd (learn nets exps s)) = noise s.
Proof.
  pose proof (learn_rest exps s) as H.
  split; [exact H|]. split; [apply rest_of_memory | apply rest_of_noise]; exact H.
Qed.

(** X2.  A batch without any transition (empty, or holding empty slots
    only) makes [learn] raise a value error before anything is trained:
    the four networks are as before. *)
Theorem learn_empty_batch (exps : list (option Experience.t)) (s : agent) :
  not_none exps = [] ->
  fst (learn nets exps s) = inl ValueError /\
  nets_of (snd (learn nets exps s)) = nets_of s /\
  trace (snd (learn nets exps s)) = trace s ++ [Learn exps].
Proof.
  intros H. rewrite learn_unfold, H. cbn. auto.
Qed.

(** *** [step]: refusal, storage, the quiet period *)

Lemma broadcast1_unpairable {A B C} (f : A -> B -> C) xs ys :
  length xs <> length ys -> length xs <> 1%nat -> length ys <> 1%nat ->
  Np.broadcast1 f xs ys = inl ValueError.
Proof.
  intros H Hx Hy. unfold Np.broadcast1.
  apply Nat.eqb_neq in H. rewrite H.
  destruct xs as [|x [|x' xs]]; destruct ys as [|y [|y' ys]];
    simpl in *; try reflexivity; contradiction.
Qed.

Lemma normalize_unpairable (low range state : Np.vec) :
  unpairable (length low) state -> normalize low range state = inl ValueError.
Proof.
  intros (H & H1 & Hl). unfold normalize, Np.sub.
  now rewrite broadcast1_unpairable.
Qed.

(** X3.  A state (or next state) whose length numpy cannot pair with the
    bounds' makes [step] raise a value error and leaves the agent exactly as
    it was: nothing is stored, nothing is learned. *)
Theorem step_refuses_misshapen_state (s : agent) (state action : Np.vec)
    (reward : Q) (next_state : Np.vec) (done : bool) (rnd : nat -> nat) :
  unpairable (length (state_low s)) state \/
  unpairable (length (state_low s)) next_state ->
  step nets state action reward next_state done rnd s = (inl ValueError, s).
Proof.
  intros H. rewrite step_unfold. destruct H as [H|H].
  - now rewrite normalize_unpairable.
  - destruct (normalize _ _ state) as [e|y] eqn:E.
    + apply normalize_error in E. now subst.
    + now rewrite normalize_unpairable.
Qed.

Lemma step_memory (s : agent) (state action : Np.vec) (reward : Q)
    (next_state : Np.vec) (done : bool) (rnd : nat -> nat)
    (state' next_state' : Np.vec) :
  normalize (state_low s) (state_range s) state = inr state' ->
  normalize (state_low s) (state_range s) next_state = inr next_state' ->
  memory (snd (step nets state action reward next_state done rnd s)) =
  ReplayBuffer.add (memory s)
    (Experience.mk state' action reward next_state' done).
Proof.
  intros H1 H2. rewrite step_unfold, H1, H2. cbv zeta.
  destruct (Nat.ltb _ _); [|reflexivity].
  destruct (ReplayBuffer.sample _ _); [reflexivity|].
  rewrite (rest_of_memory _ _ (learn_rest _ _)). reflexivity.
Qed.

(** X4.  Once its two states are normalised, [step] has stored the
    transition for good: whether the step learns or not, and whether
    learning returns or raises, the memory after the call is the memory
    before it with the transition added. *)
Theorem step_stores_whatever_learning_does (s : agent) (state action : Np.vec)
    (reward : Q) (next_state : Np.vec) (done : bool) (rnd : nat -> nat)
    (state' next_state' : Np.vec) :
  preprocess_state state s = (inr state', s) ->
  preprocess_state next_state s = (inr next_state', s) ->
  memory (snd (step nets state action reward next_state done rnd s)) =
  ReplayBuffer.add (memory s)
    (Experience.mk state' action reward next_state' done).
Proof.
  intros H1 H2. rewrite preprocess_state_pure in H1, H2.
  injection H1 as H1. injection H2 as H2.
  now apply step_memory.
Qed.

Lemma add_normalized (b : ReplayBuffer.t) (e : Experience.t) :
  memory_normalized b ->
  unit_box (Experience.state e) -> unit_box (Experience.next_state e) ->
  memory_normalized (ReplayBuffer.add b e).
Proof.
  unfold memory_normalized, ReplayBuffer.add. intros Hb Hs Hn.
  destruct (Nat.eqb _ _); cbn [ReplayBuffer.memory];
    apply Forall_app; split; auto.
  destruct (ReplayBuffer.memory b); [constructor|].
  now inversion Hb.
Qed.

(** X5.  The replay memory only ever holds normalised states: given a
    state and a next state within the environment's bounds, the transition
    [step] hands to the memory has both its states within [-1, 1], and if
    every stored transition had its states within [-1, 1] before the step,
    so has every stored transition after it, whatever the outcome of
    learning. *)
Theorem step_keeps_memory_normalized (s : agent) (state action : Np.vec)
    (reward : Q) (next_state : Np.vec) (done : bool) (rnd : nat -> nat) :
  Np.sub (state_high s) (state_low s) = ok (state_range s) ->
  Forall2 Qlt (state_low s) (state_high s) ->
  Forall2 Qle (state_low s) state -> Forall2 Qle state (state_high s) ->
  Forall2 Qle (state_low s) next_state ->
  Forall2 Qle next_state (state_high s) ->
  exists e,
    memory (snd (step nets state action reward next_state done rnd s)) =
      ReplayBuffer.add (memory s) e /\
    unit_box (Experience.state e) /\ unit_box (Experience.next_state e) /\
    (memory_normalized (memory s) ->
     memory_normalized
       (memory (snd (step nets state action reward next_state done rnd s)))).
Proof.
  intros Hr Hlt Hl Hh Hl' Hh'.
  pose proof (range_of_bounds _ _ _ Hlt Hr) as Hrange.
  pose proof (Forall2_length_eq _ _ _ Hlt) as Hlh.
  pose proof (Forall2_length_eq _ _ _ Hl) as Hls.
  pose proof (Forall2_length_eq _ _ _ Hl') as Hls'.
  assert (Hrl : length (state_range s) = length (state_low s)).
  { rewrite Hrange, zip_with_length; congruence. }
  assert (H1 : preprocess_state state s =
               (inr (normalized (state_low s) (state_range s) state), s)).
  { apply preprocess_state_run; congruence. }
  assert (H2 : preprocess_state next_state s =
               (inr (normalized (state_low s) (state_range s) next_state), s)).
  { apply preprocess_state_run; congruence. }
  rewrite preprocess_state_pure in H1, H2.
  injection H1 as H1. injection H2 as H2.
  rewrite (step_memory _ _ _ _ _ _ _ _ _ H1 H2).
  assert (Hs : unit_box (normalized (state_low s) (state_range s) state)).
  { rewrite Hrange. apply normalized_bounds; assumption. }
  assert (Hn : unit_box (normalized (state_low s) (state_range s) next_state)).
  { rewrite Hrange. apply normalized_bounds; assumption. }
  eexists. split; [reflexivity|]. cbn [Experience.state Experience.next_state].
  split; [exact Hs|]. split; [exact Hn|].
  intros Hm. apply add_normalized; assumption.
Qed.

Lemma nets_of_eq (s s' : agent) :
  (forall n, get_net n s' = get_net n s) -> nets_of s' = nets_of s.
Proof.
  intros H. unfold nets_of.
  pose proof (H ActorLocal) as H1. pose proof (H ActorTarget) as H2.
  pose proof (H CriticLocal) as H3. pose proof (H CriticTarget) as H4.
  cbn [get_net] in *. now rewrite H1, H2, H3, H4.
Qed.

Lemma add_len_le (b : ReplayBuffer.t) (e : Experience.t) :
  (ReplayBuffer.len (ReplayBuffer.add b e) <= ReplayBuffer.len b + 1)%nat.
Proof.
  unfold ReplayBuffer.add, ReplayBuffer.len.
  destruct (Nat.eqb _ _); cbn [ReplayBuffer.memory]; rewrite length_app; simpl.
  - destruct (ReplayBuffer.memory b); simpl; lia.
  - lia.
Qed.

Lemma act_frame_gen {X} (f : agent -> X) (state normal : Np.vec) (s : agent) :
  (forall n s0, f (set_noise n s0) = f s0) ->
  f (snd (act nets state normal s)) = f s.
Proof.
  intros Hf. unfold act. unfold bind at 1. rewrite preprocess_state_pure.
  destruct (normalize _ _ _); [reflexivity|].
  cbv [bind gets lift modify ret ok].
  destruct (Np.reshape_rows _ _); [reflexivity|].
  destruct (first _); [reflexivity|].
  destruct (OUNoise.sample _ _) as [e|[x n']]; [reflexivity|].
  cbn [snd fst].
  destruct (rbind _ _); cbn [snd]; apply Hf.
Qed.

Lemma act_rest (state normal : Np.vec) (s : agent) :
  memory (snd (act nets state normal s)) = memory s /\
  batch_size (snd (act nets state normal s)) = batch_size s.
Proof. split; apply act_frame_gen; reflexivity. Qed.

Lemma step_quiet (s : agent) (state action : Np.vec) (reward : Q)
    (next_state : Np.vec) (done : bool) (rnd : nat -> nat) :
  (ReplayBuffer.len (memory s) < batch_size s)%nat ->
  let s' := snd (step nets state action reward next_state done rnd s) in
  nets_of s' = nets_of s /\ batch_size s' = batch_size s /\
  (ReplayBuffer.len (memory s') <= ReplayBuffer.len (memory s) + 1)%nat.
Proof.
  intros Hlen. cbv zeta. rewrite step_unfold.
  destruct (normalize _ _ state); [cbn [snd]; repeat split; lia|].
  destruct (normalize _ _ next_state); [cbn [snd]; repeat split; lia|].
  cbv zeta.
  match goal with |- context [stored ?e s] =>
    pose proof (add_len_le (memory s) e) as Hadd;
    assert (Hgate : Nat.ltb (batch_size s)
                      (ReplayBuffer.len (memory (stored e s))) = false)
      by (apply Nat.ltb_ge; cbn [stored memory set_memory]; lia)
  end.
  rewrite Hgate. cbn [snd]. repeat split. exact Hadd.
Qed.

(** X6.  While the replay memory can hold the transitions of all the calls
    to come without exceeding [batch_size], no sequence of [reset], [act]
    and [step] calls changes any of the four networks: learning starts only
    once more than [batch_size] transitions are stored. *)
Theorem no_learning_before_batch_is_exceeded (calls : list call) (s : agent) :
  (ReplayBuffer.len (memory s) + length calls <= batch_size s)%nat ->
  nets_of (run_calls nets calls s) = nets_of s.
Proof.
  revert s. induction calls as [|c calls IH]; intros s Hlen; [reflexivity|].
  cbn [run_calls fold_left]. fold (run_calls nets calls (run_call nets c s)).
  cbn [length] in Hlen.
  assert (Hc : nets_of (run_call nets c s) = nets_of s /\
               batch_size (run_call nets c s) = batch_size s /\
               (ReplayBuffer.len (memory (run_call nets c s))
                <= ReplayBuffer.len (memory s) + 1)%nat).
  { destruct c; cbn [run_call].
    - repeat split. cbn. lia.
    - destruct (act_rest state normal s) as [Hm Hb]. rewrite Hm, Hb.
      repeat split; [|lia]. apply nets_of_eq. intros n. apply act_frame.
    - apply step_quiet. lia. }
  destruct Hc as (Hn & Hb & Hl).
  rewrite IH; [exact Hn|]. rewrite Hb. lia.
Qed.

(** *** [act], case by case *)

Lemma act_unfold (state normal : Np.vec) (s : agent) :
  act nets state normal s =
  match normalize (state_low s) (state_range s) state with
  | inl e => (inl e, s)
  | inr y =>
  match Np.reshape_rows (state_size s) y with
  | inl e => (inl e, s)
  | inr rows =>
  match first (actor_predict nets (actor_local s) rows) with
  | inl e => (inl e, s)
  | inr pure_action =>
  match OUNoise.sample (noise s) normal with
  | inl e => (inl e, s)
  | inr sample =>
  match rbind (Np.add (Np.muls pure_action 0.2) (fst sample))
              (fun a => Np.clip a (action_low s) (action_high s)) with
  | inl e => (inl e, set_noise (snd sample) s)
  | inr noisy => (inr (noisy, pure_action), set_noise (snd sample) s)
  end end end end end.
Proof.
  unfold act. unfold bind at 1. rewrite preprocess_state_pure.
  destruct (normalize _ _ _); [reflexivity|].
  cbv [bind gets lift modify ret ok].
  destruct (Np.reshape_rows _ _); [reflexivity|].
  destruct (first _); [reflexivity|].
  destruct (OUNoise.sample _ _) as [e|[x n']]; [reflexivity|].
  cbn [snd fst action_low action_high set_noise].
  destruct (rbind _ _); reflexivity.
Qed.

(** X7.  [act] writes the noise process and nothing else: networks, replay
    memory, trace, bounds and hyperparameters are the same after the call,
    whether it returns or raises. *)
Theorem act_writes_noise_only (state normal : Np.vec) (s : agent) :
  except_noise (snd (act nets state normal s)) = except_noise s.
Proof.
  rewrite act_unfold.
  destruct (normalize _ _ _); [reflexivity|].
  destruct (Np.reshape_rows _ _); [reflexivity|].
  destruct (first _); [reflexivity|].
  destruct (OUNoise.sample _ _); [reflexivity|].
  destruct (rbind _ _); reflexivity.
Qed.

Lemma reshape_single_row (k : nat) (y : Np.vec) :
  (0 < k)%nat -> length y = k -> Np.reshape_rows k y = inr [y].
Proof.
  intros Hk Hy. unfold Np.reshape_rows. destruct k as [|k']; [lia|].
  rewrite Hy, Nat.Div0.mod_same, Nat.div_same by lia.
  cbn [Nat.eqb Np.chunks ok]. rewrite <- Hy, firstn_all. reflexivity.
Qed.

(** X8.  The second value [act] returns is the local actor's output on the
    normalised state, as it is: not damped, not clipped, and the same
    whatever the noise draw. *)
Theorem act_pure_action (s s' : agent) (state normal y noisy pure_action : Np.vec) :
  preprocess_state state s = (inr y, s) ->
  length y = state_size s ->
  act nets state normal s = (inr (noisy, pure_action), s') ->
  pure_action = actor_forward nets (Keras.get_weights (actor_local s)) y.
Proof.
  intros Hy Hlen H. rewrite preprocess_state_pure in Hy. injection Hy as Hy.
  rewrite act_unfold, Hy in H.
  destruct (Nat.eq_dec (state_size s) 0) as [H0|H0].
  { rewrite H0 in H. discriminate. }
  rewrite reshape_single_row in H by lia.
  cbn [actor_predict map first ok] in H.
  destruct (OUNoise.sample _ _); [discriminate|].
  destruct (rbind _ _); [discriminate|].
  now injection H as _ <- _.
Qed.

Lemma clip_inside (a lo hi r : Np.vec) :
  Forall2 Qle lo a -> Forall2 Qle a hi ->
  Np.clip a lo hi = inr r -> Forall2 Qeq r a.
Proof.
  intros Hl Hh H.
  pose proof (Forall2_length_eq _ _ _ Hl) as Ll.
  pose proof (Forall2_length_eq _ _ _ Hh) as Lh.
  unfold Np.clip, Np.maximum, Np.minimum in H.
  rewrite broadcast1_same_length in H by congruence. cbn [rbind ok] in H.
  rewrite broadcast1_same_length in H
    by (rewrite zip_with_length; congruence).
  injection H as <-. clear Ll Lh.
  revert hi Hh. induction Hl as [|l x lo a Hlx Hl IH]; intros hi Hh;
    inversion Hh as [|? h ? hi' Hxh Hh']; subst; simpl; constructor.
  - rewrite (Q.max_l x l Hlx). apply Q.min_r. exact Hxh.
  - apply IH. exact Hh'.
Qed.

(** X9.  Clipping changes nothing inside the bounds: when the damped action
    plus the noise sample lies within [action_low, action_high] in every
    component, the noisy action [act] returns is that sum. *)
Theorem act_inside_bounds_unclipped (s s' : agent)
    (state normal noisy pure_action sample a : Np.vec) :
  act nets state normal s = (inr (noisy, pure_action), s') ->
  OUNoise.sample (noise s) normal = inr (sample, noise s') ->
  Np.add (Np.muls pure_action 0.2) sample = inr a ->
  Forall2 Qle (action_low s) a -> Forall2 Qle a (action_high s) ->
  Forall2 Qeq noisy a.
Proof.
  intros H Hs Ha Hl Hh. rewrite act_unfold in H.
  destruct (normalize _ _ _); [discriminate|].
  destruct (Np.reshape_rows _ _); [discriminate|].
  destruct (first _); [discriminate|].
  rewrite Hs in H. cbn [fst snd] in H.
  destruct (rbind _ _) as [e|r] eqn:Hr; [discriminate|].
  injection H as -> -> _.
  rewrite Ha in Hr. cbn [rbind] in Hr.
  eapply clip_inside; eassumption.
Qed.

Lemma noise_sample_ready (n : OUNoise.t) (normal : Np.vec) (m : nat) :
  length (OUNoise.mu n) = m -> length (OUNoise.x n) = m -> length normal = m ->
  exists x',
    OUNoise.sample n normal =
      inr (x', OUNoise.mk (OUNoise.mu n) (OUNoise.theta n) (OUNoise.sigma n) x') /\
    length x' = m.
Proof.
  intros Hmu Hx Hn. unfold OUNoise.sample, Np.sub, Np.add, Np.smul.
  rewrite broadcast1_same_length by congruence. cbn [rbind ok].
  rewrite broadcast1_same_length
    by (rewrite !length_map, zip_with_length; congruence). cbn [rbind ok].
  rewrite broadcast1_same_length
    by (rewrite zip_with_length; rewrite !length_map, ?zip_with_length; congruence).
  cbn [rbind ok]. eexists. split; [reflexivity|].
  rewrite zip_with_length; [exact Hx|].
  rewrite zip_with_length; rewrite !length_map, ?zip_with_length; congruence.
Qed.

Lemma clip_same_length (a lo hi : Np.vec) :
  length lo = length a -> length hi = length a ->
  exists r, Np.clip a lo hi = inr r /\ length r = length a.
Proof.
  intros Hl Hh. unfold Np.clip, Np.maximum, Np.minimum.
  rewrite broadcast1_same_length by congruence. cbn [rbind ok].
  rewrite broadcast1_same_length by (rewrite zip_with_length; congruence).
  eexists. split; [reflexivity|].
  rewrite zip_with_length; [exact Hh|]. rewrite zip_with_length; congruence.
Qed.

(** X10.  On an agent whose bounds and noise process have the declared
    sizes, with an actor that yields [action_size] numbers, [act] returns
    for every state of [state_size] components and every draw of
    [action_size] components; both actions have [action_size] components,
    and the agent is ready for the next call. *)
Theorem act_returns (s : agent) (state normal : Np.vec) :
  act_ready s ->
  (forall y, length (actor_forward nets (Keras.get_weights (actor_local s)) y)
             = action_size s) ->
  length state = state_size s ->
  length normal = action_size s ->
  exists noisy pure_action s',
    act nets state normal s = (inr (noisy, pure_action), s') /\
    length noisy = action_size s /\
    length pure_action = action_size s /\
    act_ready s'.
Proof.
  intros (Hk & Hlow & Hrange & Hal & Hah & Hmu & Hx) Hactor Hstate Hnormal.
  rewrite act_unfold.
  pose proof (preprocess_state_run s state) as Hrun.
  rewrite preprocess_state_pure in Hrun.
  assert (Hy : normalize (state_low s) (state_range s) state =
               inr (normalized (state_low s) (state_range s) state)).
  { assert (H : (normalize (state_low s) (state_range s) state, s) =
                (ok (normalized (state_low s) (state_range s) state), s))
      by (apply Hrun; congruence).
    now injection H. }
  rewrite Hy.
  rewrite reshape_single_row;
    [|exact Hk | rewrite normalized_length; congruence].
  cbn [actor_predict map first ok].
  set (pure := actor_forward nets _ _).
  assert (Hp : length pure = action_size s) by apply Hactor.
  destruct (noise_sample_ready (noise s) normal (action_size s) Hmu Hx Hnormal)
    as (x' & Hsample & Hx').
  rewrite Hsample. cbn [fst snd].
  unfold Np.add at 1.
  rewrite broadcast1_same_length
    by (unfold Np.muls; rewrite length_map; congruence).
  cbn [rbind ok].
  set (a := Np.zip_with Qplus _ _).
  assert (Ha : length a = action_size s).
  { subst a. rewrite zip_with_length; unfold Np.muls; rewrite length_map; congruence. }
  destruct (clip_same_length a (action_low s) (action_high s))
    as (r & Hclip & Hr); try congruence.
  rewrite Hclip. exists r, pure, (set_noise
    (OUNoise.mk (OUNoise.mu (noise s)) (OUNoise.theta (noise s))
                (OUNoise.sigma (noise s)) x') s).
  split; [reflexivity|]. split; [congruence|]. split; [exact Hp|].
  unfold act_ready. cbn. auto 10.
Qed.

(** *** [learn] on a well-formed batch *)

Lemma vstack_same_length (rows : list Np.vec) (n : nat) :
  rows <> [] -> Forall (fun r => length r = n) rows -> Np.vstack rows = inr rows.
Proof.
  intros Hne H. unfold Np.vstack. destruct rows as [|r rest]; [contradiction|].
  inversion H as [|? ? Hr Hrest]; subst.
  assert (Hb : forallb (fun r' => Nat.eqb (length r') (length r)) rest = true).
  { apply forallb_forall. intros r' Hin. apply Nat.eqb_eq.
    rewrite Forall_forall in Hrest. now apply Hrest. }
  now rewrite Hb.
Qed.

Lemma concat_rows_length (k : nat) (rows : list Np.vec) :
  Forall (fun r => length r = k) rows ->
  length (concat rows) = (length rows * k)%nat.
Proof.
  induction 1 as [|r rows Hr H IH]; simpl; [reflexivity|].
  rewrite length_app, IH, Hr. reflexivity.
Qed.

Lemma chunks_concat (k : nat) (rows : list Np.vec) :
  Forall (fun r => length r = k) rows ->
  Np.chunks k (length rows) (concat rows) = rows.
Proof.
  induction 1 as [|r rows Hr H IH]; simpl; [reflexivity|].
  rewrite firstn_app, skipn_app, Hr, Nat.sub_diag. cbn [firstn skipn].
  rewrite <- Hr, firstn_all, skipn_all, app_nil_r. cbn [app].
  rewrite Hr. now rewrite IH.
Qed.

(** Reshaping the rows of a matrix of [k] columns to [k] columns gives the
    rows back. *)
Lemma reshape_rows_concat (k : nat) (rows : list Np.vec) :
  (0 < k)%nat -> Forall (fun r => length r = k) rows ->
  Np.reshape_rows k (concat rows) = inr rows.
Proof.
  intros Hk H. unfold Np.reshape_rows. destruct k as [|k']; [lia|].
  rewrite (concat_rows_length _ _ H), Nat.Div0.mod_mul, Nat.div_mul by lia.
  cbn [Nat.eqb ok]. now rewrite chunks_concat.
Qed.

Lemma array_reshape_rows (k : nat) (rows : list Np.vec) :
  (0 < k)%nat -> Forall (fun r => length r = k) rows ->
  array_reshape k rows = inr rows.
Proof.
  intros Hk H. unfold array_reshape. destruct rows as [|r rest].
  - apply (reshape_rows_concat k [] Hk H).
  - inversion H as [|? ? Hr Hrest]; subst.
    assert (Hb : forallb (fun r' => Nat.eqb (length r') (length r)) rest = true).
    { apply forallb_forall. intros r' Hin. apply Nat.eqb_eq.
      rewrite Forall_forall in Hrest. now apply Hrest. }
    rewrite Hb. now apply reshape_rows_concat.
Qed.

Lemma Forall_map_length {A} (f : A -> Np.vec) (n : nat) (xs : list A) :
  Forall (fun x => length (f x) = n) xs -> Forall (fun r => length r = n) (map f xs).
Proof. induction 1; simpl; constructor; auto. Qed.

(** X11.  On a batch it can stack, with a critic whose action gradients
    have [action_size] components, training that keeps shapes, matching
    local and target networks of well-formed tensors, and trained local
    networks whose weight lists numpy turns into arrays of their tensors,
    [learn] returns, and it is one critic step on the transitions' states
    and actions toward the TD targets, one actor step on the gradient of the
    trained critic, and the two interpolations of the targets toward the
    trained local networks. *)
Theorem learn_on_stackable_batch (s : agent) (exps : list (option Experience.t)) :
  let es := not_none exps in
  let states := map Experience.state es in
  let actions := map Experience.action es in
  let Q_targets :=
    bootstrapped (gamma s)
      (actor_forward nets (Keras.get_weights (actor_target s)))
      (critic_forward nets (Keras.get_weights (critic_target s))) es in
  let critic' :=
    critic_train_on_batch nets (critic_local s) states actions Q_targets in
  let grads :=
    critic_get_action_gradients nets (Keras.get_weights critic') states actions in
  let actor' := actor_train_fn nets (actor_local s) states grads in
  stackable (action_size s) es ->
  Forall (fun g => length g = action_size s) grads ->
  Keras.shapes (Keras.get_weights critic') =
    Keras.shapes (Keras.get_weights (critic_local s)) ->
  Keras.shapes (Keras.get_weights actor') =
    Keras.shapes (Keras.get_weights (actor_local s)) ->
  matched s ->
  Forall Np.wf_ndarray (Keras.get_weights critic') ->
  Forall Np.wf_ndarray (Keras.get_weights (critic_target s)) ->
  Forall Np.wf_ndarray (Keras.get_weights actor') ->
  Forall Np.wf_ndarray (Keras.get_weights (actor_target s)) ->
  entrywise (numpy nets) (Keras.get_weights critic') ->
  entrywise (numpy nets) (Keras.get_weights actor') ->
  exists s',
    learn nets exps s = (inr tt, s') /\
    critic_local s' = critic' /\
    actor_local s' = actor' /\
    Keras.get_weights (critic_target s') =
      soft_update_spec (tau_critic s) (Keras.get_weights critic')
                       (Keras.get_weights (critic_target s)) /\
    Keras.get_weights (actor_target s') =
      soft_update_spec (tau_actor s) (Keras.get_weights actor')
                       (Keras.get_weights (actor_target s)).
Proof.
  intros es states actions Y critic' grads actor'
         (Hne & Hk & [n Hst] & [n' Hns] & Hact) Hg Hcs Has [Hmc Hma]
         Hwc Hwct Hwa Hwat Hec Hea.
  rewrite learn_unfold. cbv zeta. fold es.
  rewrite (vstack_same_length (map Experience.state es) n)
    by (try apply Forall_map_length; try exact Hst;
        intros E; apply map_eq_nil in E; contradiction).
  rewrite (array_reshape_rows (action_size s) (map Experience.action es))
    by (try apply Forall_map_length; assumption).
  rewrite (vstack_same_length (map Experience.next_state es) n')
    by (try apply Forall_map_length; try exact Hns;
        intros E; apply map_eq_nil in E; contradiction).
  unfold critic_predict, actor_predict.
  rewrite td_targets_closed. unfold ok. cbv beta iota.
  fold states actions. fold Y. fold critic'. fold grads.
  rewrite (reshape_rows_concat (action_size s) grads Hk Hg).
  fold actor'.
  match goal with |- context [soft_update nets CriticLocal CriticTarget ?tau ?s3] =>
    destruct (soft_update_run nets CriticLocal CriticTarget tau s3)
      as (m1 & H1 & Hw1 & _)
  end.
  { cbn [get_net critic_local critic_target set_net record].
    rewrite Hcs. exact Hmc. }
  { exact Hwc. }
  { exact Hwct. }
  { exact Hec. }
  rewrite H1. unfold ok. cbv beta iota.
  match goal with |- context [soft_update nets ActorLocal ActorTarget ?tau ?s4] =>
    destruct (soft_update_run nets ActorLocal ActorTarget tau s4)
      as (m2 & H2 & Hw2 & _)
  end.
  { cbn [get_net actor_local actor_target set_net record].
    rewrite Has. exact Hma. }
  { exact Hwa. }
  { exact Hwat. }
  { exact Hea. }
  rewrite H2. eexists. split; [reflexivity|].
  cbn [critic_local actor_local critic_target actor_target set_net record].
  cbn [get_net critic_local actor_local critic_target actor_target set_net
       record tau_actor] in Hw1, Hw2.
  repeat split; assumption.
Qed.

(** *** [soft_update]: interpolation *)








(** *** [soft_update]: the kinds of failure *)

(** X14.  [soft_update] raises an assertion error exactly when the two
    models differ in their number of weight tensors and numpy builds an
    array from each of the two weight lists; any other failure is a value
    error, raised by [np.array], by the array arithmetic or by
    [set_weights]. *)
Theorem soft_update_failures (l t : net) (tau : Q) (s : agent) :
  (fst (soft_update nets l t tau s) = inl AssertionError <->
   length (Keras.get_weights (get_net l s)) <>
   length (Keras.get_weights (get_net t s)) /\
   buildable (numpy nets) (Keras.get_weights (get_net l s)) /\
   buildable (numpy nets) (Keras.get_weights (get_net t s))) /\
  (forall e, fst (soft_update nets l t tau s) = inl e ->
             e = AssertionError \/ e = ValueError).
Proof.
  split; [split|].
  - intros H. apply soft_update_error in H.
    destruct H as [H|(_ & H)]; [discriminate|exact H].
  - intros (Hlen & Hb).
    destruct (new_weights_size_mismatch (numpy nets) tau _ _ Hlen) as [_ Hiff].
    apply Hiff in Hb. rewrite soft_update_unfold. cbv zeta.
    now rewrite Hb.
  - intros e H. apply soft_update_error in H.
    destruct H as [H|(H & _)]; auto.
Qed.

(** X21.  On numpy from 1.24 on, [soft_update] raises a value error at
    [np.array] whenever the tensors of the local model, or those of the
    target model, are not all of one shape; nothing but the call record is
    written. *)
Theorem soft_update_strict_ragged (l t : net) (tau : Q) (s : agent) :
  numpy nets = Np.Strict ->
  Np.uniform (Keras.shapes (Keras.get_weights (get_net l s))) = false \/
  Np.uniform (Keras.shapes (Keras.get_weights (get_net t s))) = false ->
  soft_update nets l t tau s = (inl ValueError, record (SoftUpdate l t tau) s).
Proof.
  intros Hv Hr. rewrite soft_update_unfold. cbv zeta.
  unfold new_weights, Np.array, Keras.shapes in *. cbv zeta. rewrite Hv.
  destruct (Np.uniform (map Np.shape (Keras.get_weights (get_net l s))));
    [|reflexivity].
  destruct Hr as [Hr|Hr]; [discriminate|]. now rewrite Hr.
Qed.

(** *** [np.array] on a list of weights *)

(** Stacked tensors of one shape, cut along the first axis, are the
    tensors. *)
Lemma chunks_concat_rows (sh : list nat) (ws : list Np.ndarray) :
  Forall (fun w => Np.shape w = sh) ws ->
  Forall Np.wf_ndarray ws ->
  map (Np.mk_ndarray sh)
      (Np.chunks (Np.size sh) (length ws) (concat (map Np.data ws))) = ws.
Proof.
  induction 1 as [|w ws Hs Hsh IH]; intros Hwf; [reflexivity|].
  inversion Hwf as [|? ? Hw Hwf']; subst.
  unfold Np.wf_ndarray in Hw.
  cbn [length map concat Np.chunks].
  rewrite firstn_app, skipn_app, <- Hw, Nat.sub_diag.
  cbn [firstn skipn].
  rewrite firstn_all, skipn_all, app_nil_r. cbn [app].
  rewrite Hw, (IH Hwf'). destruct w; reflexivity.
Qed.

(** X22.  For well-formed tensors, [np.array] makes an array that holds
    them one by one exactly when they are all of one shape, or, on numpy
    before 1.24, when their shapes have no first dimension in common. *)
Theorem entrywise_iff (v : Np.version) (ws : list Np.ndarray) :
  Forall Np.wf_ndarray ws ->
  (entrywise v ws <->
   Np.uniform (Keras.shapes ws) = true \/
   (v = Np.Legacy /\ Np.common_prefix (Keras.shapes ws) = [])).
Proof.
  intros Hwf. unfold entrywise, Np.array, Keras.shapes. cbv zeta.
  destruct (Np.uniform (map Np.shape ws)) eqn:Hu.
  - split; [auto|]. intros _. eexists. split; [reflexivity|].
    cbn [Np.rows Np.shape Np.data].
    apply chunks_concat_rows; [apply uniform_shapes, Hu | exact Hwf].
  - destruct v.
    + destruct (Np.common_prefix (map Np.shape ws)) as [|d p] eqn:Hp.
      * split; [auto|]. intros _. eexists. split; reflexivity.
      * split.
        -- intros (a & Ha & Hrows). exfalso.
           destruct (forallb _ _); [|discriminate].
           injection Ha as <-. cbn [Np.rows Np.shape Np.data] in Hrows.
           rewrite <- Hrows, map_map in Hu. cbn [Np.shape] in Hu.
           now rewrite uniform_constant in Hu.
        -- intros [H|[_ H]]; discriminate.
    + split.
      * intros (a & Ha & _). discriminate.
      * intros [H|[H _]]; discriminate.
Qed.

(** *** [__init__]: when construction succeeds *)

Lemma broadcast1_pairable {A B C} (f : A -> B -> C) xs ys :
  (exists zs, Np.broadcast1 f xs ys = inr zs) <-> pairable xs ys.
Proof.
  unfold pairable. split.
  - intros [zs H].
    destruct (Nat.eq_dec (length xs) (length ys)) as [|Hne]; [auto|].
    destruct (Nat.eq_dec (length xs) 1) as [|Hx]; [auto|].
    destruct (Nat.eq_dec (length ys) 1) as [|Hy]; [auto|].
    rewrite broadcast1_unpairable in H by assumption. discriminate.
  - intros [H|[H|H]].
    + rewrite broadcast1_same_length by exact H. eauto.
    + destruct xs as [|x [|x' xs]]; try discriminate.
      rewrite broadcast1_scalar_l. eauto.
    + destruct ys as [|y [|y' ys]]; try discriminate.
      rewrite broadcast1_scalar_r. eauto.
Qed.

Lemma set_weights_returns (m : Keras.model) (ws : list Np.ndarray) :
  (exists m', Keras.set_weights m ws = inr m') <->
  Keras.shapes ws = Keras.shapes (Keras.get_weights m).
Proof.
  unfold Keras.set_weights, ok, throw.
  destruct (list_eq_dec _ _ _) as [E|E]; split; eauto.
  - intros [m' H]. discriminate.
  - contradiction.
Qed.

(** X15.  [__init__] returns an agent exactly when both spaces have a
    first dimension, the bounds of each space can be subtracted from one
    another, and each target network has the weight shapes of its local
    network; a target built with other shapes is refused at construction. *)
Theorem init_returns_iff (task : Task.t)
    (new_actor_local new_actor_target new_critic_local new_critic_target
       : Keras.model) :
  (exists s, init task new_actor_local new_actor_target
                  new_critic_local new_critic_target = inr s) <->
  Task.space_shape (Task.observation_space task) <> [] /\
  pairable (Task.high (Task.observation_space task))
           (Task.low (Task.observation_space task)) /\
  Task.space_shape (Task.action_space task) <> [] /\
  pairable (Task.high (Task.action_space task))
           (Task.low (Task.action_space task)) /\
  Keras.shapes (Keras.get_weights new_critic_local) =
    Keras.shapes (Keras.get_weights new_critic_target) /\
  Keras.shapes (Keras.get_weights new_actor_local) =
    Keras.shapes (Keras.get_weights new_actor_target).
Proof.
  unfold init, Task.shape0, Np.sub.
  rewrite <- !broadcast1_pairable with (f := Qminus).
  rewrite <- !set_weights_returns.
  destruct (Task.space_shape (Task.observation_space task)) as [|n shp].
  { cbn [rbind throw]. split.
    - intros [s H]. discriminate.
    - intros [H _]. contradiction. }
  cbn [rbind ok].
  destruct (Np.broadcast1 Qminus (Task.high (Task.observation_space task)) _)
    as [e|state_range].
  { cbn [rbind]. split.
    - intros [s H]. discriminate.
    - intros (_ & [zs H] & _). discriminate. }
  cbn [rbind].
  destruct (Task.space_shape (Task.action_space task)) as [|k shp'].
  { cbn [rbind throw]. split.
    - intros [s H]. discriminate.
    - intros (_ & _ & H & _). contradiction. }
  cbn [rbind ok].
  destruct (Np.broadcast1 Qminus (Task.high (Task.action_space task)) _)
    as [e|action_range].
  { cbn [rbind]. split.
    - intros [s H]. discriminate.
    - intros (_ & _ & _ & [zs H] & _). discriminate. }
  cbn [rbind].
  destruct (Keras.set_weights new_critic_target _) as [e|ct].
  { cbn [rbind]. split.
    - intros [s H]. discriminate.
    - intros (_ & _ & _ & _ & [m H] & _). discriminate. }
  cbn [rbind].
  destruct (Keras.set_weights new_actor_target _) as [e|at_].
  { cbn [rbind]. split.
    - intros [s H]. discriminate.
    - intros (_ & _ & _ & _ & _ & [m H]). discriminate. }
  cbn [rbind]. split.
  - intros _. repeat split; try discriminate; eauto.
  - intros _. eexists. reflexivity.
Qed.

(** *** [preprocess_state]: order *)

Lemma affine_component_le (lo hi x x' : Q) :
  lo < hi -> x <= x' ->
  (x - lo) / (hi - lo) * 2 - 1 <= (x' - lo) / (hi - lo) * 2 - 1.
Proof.
  intros H Hx.
  assert (Hd : 0 < / (hi - lo)) by (apply Qinv_lt_0_compat; lra).
  assert (Hm : (x - lo) * / (hi - lo) <= (x' - lo) * / (hi - lo)).
  { apply Qmult_le_compat_r; lra. }
  unfold Qdiv. lra.
Qed.

Lemma normalized_monotone (low high x x' : Np.vec) :
  Forall2 Qlt low high -> length x = length low -> Forall2 Qle x x' ->
  Forall2 Qle (normalized low (Np.zip_with Qminus high low) x)
              (normalized low (Np.zip_with Qminus high low) x').
Proof.
  intros H. revert x x'.
  induction H as [|lo hi low high Hlt H IH]; intros x x' Hlen Hx;
    inversion Hx; subst; simpl in *; try discriminate; constructor.
  - apply affine_component_le; assumption.
  - apply IH; [congruence | assumption].
Qed.

(** X16.  Normalisation keeps the order of states: for bounds with
    [state_low < state_high], a state that is componentwise at most another
    one has a normalised state componentwise at most the other's. *)
Theorem preprocess_state_monotone (s : agent) (x x' : Np.vec) :
  Np.sub (state_high s) (state_low s) = ok (state_range s) ->
  Forall2 Qlt (state_low s) (state_high s) ->
  length x = length (state_low s) -> length x' = length (state_low s) ->
  exists y y',
    preprocess_state x s = (inr y, s) /\
    preprocess_state x' s = (inr y', s) /\
    (Forall2 Qle x x' -> Forall2 Qle y y').
Proof.
  intros Hr Hlt Hx Hx'.
  pose proof (Forall2_length_eq _ _ _ Hlt) as Hlh.
  pose proof (range_of_bounds _ _ _ Hlt Hr) as Hrange.
  assert (Hrl : length (state_range s) = length (state_low s)).
  { rewrite Hrange, zip_with_length; congruence. }
  exists (normalized (state_low s) (state_range s) x),
         (normalized (state_low s) (state_range s) x').
  rewrite !preprocess_state_run by congruence.
  rewrite Hrange.
  repeat split.
  intros H. apply normalized_monotone; assumption.
Qed.

(** *** Readiness along a run *)

Lemma act_ready_sizes (s s' : agent) :
  sizes_of s' = sizes_of s -> act_ready s -> act_ready s'.
Proof.
  unfold sizes_of, act_ready. intros H. injection H as -> -> -> -> -> -> ->.
  auto.
Qed.

Lemma rest_of_sizes (s s' : agent) :
  rest_of s' = rest_of s -> sizes_of s' = sizes_of s.
Proof.
  unfold rest_of, sizes_of. intros H.
  injection H as H1 H2 H3 H4 H5 H6 H7 H8 H9 H10 H11 H12 H13 H14 H15.
  congruence.
Qed.

Lemma step_sizes (s : agent) (state action : Np.vec) (reward : Q)
    (next_state : Np.vec) (done : bool) (rnd : nat -> nat) :
  sizes_of (snd (step nets state action reward next_state done rnd s)) =
  sizes_of s.
Proof.
  rewrite step_unfold.
  destruct (normalize _ _ state); [reflexivity|].
  destruct (normalize _ _ next_state); [reflexivity|].
  cbv zeta.
  destruct (Nat.ltb _ _); [|reflexivity].
  destruct (ReplayBuffer.sample _ _); [reflexivity|].
  rewrite (rest_of_sizes _ _ (learn_rest _ _)). reflexivity.
Qed.

Lemma act_ready_after_act (s : agent) (state normal : Np.vec) :
  act_ready s -> length normal = action_size s ->
  act_ready (snd (act nets state normal s)).
Proof.
  intros Hr Hn. pose proof Hr as (Hk & Hlow & Hrange & Hal & Hah & Hmu & Hx).
  rewrite act_unfold.
  destruct (normalize _ _ _); [exact Hr|].
  destruct (Np.reshape_rows _ _); [exact Hr|].
  destruct (first _); [exact Hr|].
  destruct (noise_sample_ready (noise s) normal (action_size s) Hmu Hx Hn)
    as (x' & Hsample & Hx').
  rewrite Hsample. cbn [fst snd].
  assert (H : act_ready (set_noise
            (OUNoise.mk (OUNoise.mu (noise s)) (OUNoise.theta (noise s))
                        (OUNoise.sigma (noise s)) x') s)).
  { unfold act_ready. cbn. auto 10. }
  destruct (rbind _ _); exact H.
Qed.

Lemma run_call_action_size (c : call) (s : agent) :
  action_size (run_call nets c s) = action_size s.
Proof.
  destruct c; cbn [run_call].
  - reflexivity.
  - apply (act_frame_gen action_size). reflexivity.
  - pose proof (step_sizes s state action reward next_state done rnd) as H.
    unfold sizes_of in H. now injection H.
Qed.

(** X17.  An agent ready to act stays ready: through every sequence of
    [reset], [act] and [step] calls whose noise draws have [action_size]
    components, returning or raising, the bounds and the noise process keep
    the sizes [act] relies on. *)
Theorem ready_along_runs (calls : list call) (s : agent) :
  act_ready s ->
  Forall (draws (action_size s)) calls ->
  act_ready (run_calls nets calls s).
Proof.
  revert s. induction calls as [|c calls IH]; intros s Hr Hd; [exact Hr|].
  cbn [run_calls fold_left]. fold (run_calls nets calls (run_call nets c s)).
  inversion Hd as [|? ? Hc Hcs]; subst.
  apply IH.
  - destruct c; cbn [run_call draws] in *.
    + destruct Hr as (Hk & Hlow & Hrange & Hal & Hah & Hmu & Hx).
      unfold act_ready. cbn. auto 10.
    + now apply act_ready_after_act.
    + eapply act_ready_sizes; [apply step_sizes | exact Hr].
  - now rewrite run_call_action_size.
Qed.

(** *** The exceptions of [step] *)

Lemma learn_error (exps : list (option Experience.t)) (s : agent) (e : exn) :
  fst (learn nets exps s) = inl e -> e = ValueError \/ e = AssertionError.
Proof.
  rewrite learn_unfold. cbv zeta.
  destruct (Np.vstack (map Experience.state _)) as [e'|states] eqn:E1.
  { intros H. injection H as <-. left. eapply vstack_error, E1. }
  destruct (array_reshape _ _) as [e'|actions] eqn:E2.
  { intros H. injection H as <-. left. eapply array_reshape_error, E2. }
  destruct (Np.vstack (map Experience.next_state _)) as [e'|ns] eqn:E3.
  { intros H. injection H as <-. left. eapply vstack_error, E3. }
  destruct (td_targets _ _ _ _) as [e'|Y] eqn:E4.
  { intros H. injection H as <-. left. eapply td_targets_error, E4. }
  destruct (Np.reshape_rows _ _) as [e'|grads] eqn:E5.
  { intros H. injection H as <-. left. eapply reshape_rows_error, E5. }
  assert (Hsu : forall l t tau s0 e0,
             fst (soft_update nets l t tau s0) = inl e0 ->
             e0 = ValueError \/ e0 = AssertionError).
  { intros l t tau s0 e0 H. apply soft_update_error in H.
    destruct H as [H|(H & _)]; auto. }
  match goal with |- context [soft_update nets ?l ?t ?tau ?s3] =>
    pose proof (Hsu l t tau s3) as H1;
    destruct (soft_update nets l t tau s3) as [[e'|u] s4] end.
  - exact (H1 e).
  - apply Hsu.
Qed.

(** X18.  [step] never lets the sampling of the memory fail: with the
    memory's batch size equal to the agent's, whatever a call of [step]
    raises is a value error or the size assertion of [soft_update], never
    an insufficient-data or index error. *)
Theorem step_failures (s : agent) (state action : Np.vec) (reward : Q)
    (next_state : Np.vec) (done : bool) (rnd : nat -> nat) (e : exn) :
  ReplayBuffer.batch_size (memory s) = batch_size s ->
  fst (step nets state action reward next_state done rnd s) = inl e ->
  e = ValueError \/ e = AssertionError.
Proof.
  intros Hb. rewrite step_unfold.
  destruct (normalize _ _ state) as [e'|y] eqn:E1.
  { intros H. injection H as <-. left. eapply normalize_error, E1. }
  destruct (normalize _ _ next_state) as [e'|y'] eqn:E2.
  { intros H. injection H as <-. left. eapply normalize_error, E2. }
  cbv zeta.
  destruct (Nat.ltb _ _) eqn:Hgate; [|discriminate].
  apply Nat.ltb_lt in Hgate.
  unfold ReplayBuffer.sample.
  cbn [stored memory set_memory] in *.
  rewrite add_batch_size, Hb.
  assert (Hleb : forall m, (batch_size s < m)%nat -> Nat.leb m (batch_size s) = false)
    by (intros m Hm; apply Nat.leb_gt; exact Hm).
  rewrite (Hleb _ Hgate).
  apply learn_error.
Qed.

(** *** What [act] reads *)

(** X19.  The policy [act] runs is the local actor's: two agents with the
    same local actor, bounds and noise process return the same from [act],
    however their critics, their target networks and their memories
    differ. *)
Theorem act_reads_local_actor_only (s1 s2 : agent) (state normal : Np.vec) :
  actor_local s1 = actor_local s2 ->
  sizes_of s1 = sizes_of s2 ->
  fst (act nets state normal s1) = fst (act nets state normal s2) /\
  noise (snd (act nets state normal s1)) = noise (snd (act nets state normal s2)).
Proof.
  intros Ha Hs. unfold sizes_of in Hs.
  injection Hs as Hk Hlow Hrange Hak Hal Hah Hn.
  rewrite !act_unfold, Ha, Hk, Hlow, Hrange, Hal, Hah, Hn.
  destruct (normalize _ _ _); [auto|].
  destruct (Np.reshape_rows _ _); [auto|].
  destruct (first _); [auto|].
  destruct (OUNoise.sample _ _); [auto|].
  destruct (rbind _ _); auto.
Qed.

End Frames.

(** ** Concrete runs, continued *)

Lemma learn_empty_batch_witness :
  fst (learn Example.linear [None; None] Example.agent1) = inl ValueError /\
  critic_local (snd (learn Example.linear [None; None] Example.agent1)) =
    Example.critic_b.
Proof.
  destruct (learn_empty_batch Example.linear [None; None] Example.agent1 eq_refl)
    as (Hr & Hn & _).
  split; [exact Hr|].
  exact (f_equal (fun p => snd (fst p)) Hn).
Defined.

(** A state of three components for the mountain car's two. *)
Lemma step_refuses_misshapen_state_witness :
  step Example.linear [1; 2; 3] [0.5] (-1) [-0.2; 0.06] false (fun k => k)
       Example.agent0 = (inl ValueError, Example.agent0).
Proof.
  apply step_refuses_misshapen_state. left.
  repeat split; discriminate.
Defined.

(** The soft update of the critic fails in this step; the transition is
    stored nonetheless. *)
Lemma step_stores_whatever_learning_does_witness :
  fst (step Example.linear [-0.3; 0.07] [0.5] (-1) [-0.2; 0.06] false
            (fun k => k) Cases.agent_small_short) = inl AssertionError /\
  exists e,
    memory (snd (step Example.linear [-0.3; 0.07] [0.5] (-1) [-0.2; 0.06] false
                      (fun k => k) Cases.agent_small_short)) =
    ReplayBuffer.add (memory Cases.agent_small_short) e /\
    Experience.action e = [0.5].
Proof.
  split; [reflexivity|].
  eexists. split.
  - apply (step_stores_whatever_learning_does Example.linear
             Cases.agent_small_short [-0.3; 0.07] [0.5] (-1) [-0.2; 0.06]
             false (fun k => k) _ _ eq_refl eq_refl).
  - reflexivity.
Defined.

Lemma step_keeps_memory_normalized_witness :
  memory_normalized
    (memory (snd (step Example.linear [-0.3; 0.07] [0.5] (-1) [-0.2; 0.06]
                       false (fun k => k) Example.agent_small))).
Proof.
  destruct (step_keeps_memory_normalized Example.linear Example.agent_small
              [-0.3; 0.07] [0.5] (-1) [-0.2; 0.06] false (fun k => k))
    as (e & _ & _ & _ & H).
  - reflexivity.
  - repeat constructor.
  - repeat constructor; discriminate.
  - repeat constructor; discriminate.
  - repeat constructor; discriminate.
  - repeat constructor; discriminate.
  - apply H. repeat constructor; discriminate.
Defined.

(** The first calls on a fresh agent, whose memory is empty and whose
    batches hold 128 transitions. *)
Lemma no_learning_before_batch_is_exceeded_witness :
  nets_of (run_calls Example.linear Cases.loop Example.agent0) =
  nets_of Example.agent0.
Proof.
  apply no_learning_before_batch_is_exceeded.
  apply Nat.leb_le. reflexivity.
Defined.

Lemma act_pure_action_witness :
  exists noisy pure_action s' y,
    act Example.linear [-0.3; 0.07] [8] Example.agent0
      = (inr (noisy, pure_action), s') /\
    preprocess_state [-0.3; 0.07] Example.agent0 = (inr y, Example.agent0) /\
    pure_action =
      actor_forward Example.linear (Keras.get_weights Example.actor_a) y.
Proof.
  eexists _, _, _, _. split; [lazy; reflexivity|]. split; [reflexivity|].
  eapply (act_pure_action Example.linear Example.agent0 _ [-0.3; 0.07] [8]).
  - reflexivity.
  - reflexivity.
  - lazy. reflexivity.
Defined.

(** A small draw: the damped action -0.05 plus the noise sample 0.1 stays
    inside [-1, 1]. *)
Lemma act_inside_bounds_unclipped_witness :
  exists noisy a,
    Forall2 Qeq noisy a /\ Forall2 Qeq a [0.05].
Proof.
  eexists _, _. split.
  - eapply (act_inside_bounds_unclipped Example.linear Example.agent0 _
              [-0.3; 0.07] [0.4]).
    + lazy. reflexivity.
    + reflexivity.
    + reflexivity.
    + repeat constructor; discriminate.
    + repeat constructor; discriminate.
  - repeat constructor.
Defined.

Lemma act_returns_witness :
  exists noisy pure_action s',
    act Example.linear [-0.3; 0.07] [8] Example.agent0
      = (inr (noisy, pure_action), s') /\
    length noisy = 1%nat /\ act_ready s'.
Proof.
  destruct (act_returns Example.linear Example.agent0 [-0.3; 0.07] [8])
    as (noisy & pure_action & s' & H & Hn & _ & Hr).
  - repeat split; try reflexivity. apply Nat.ltb_lt. reflexivity.
  - intros y. reflexivity.
  - reflexivity.
  - reflexivity.
  - exists noisy, pure_action, s'. auto.
Defined.

(** The example batch on the agent whose local critic has moved. *)
Lemma learn_on_stackable_batch_witness :
  exists s',
    learn Example.linear Example.batch Example.agent1 = (inr tt, s') /\
    Keras.get_weights (critic_target s') =
      soft_update_spec 0.5 (Keras.get_weights (critic_local s'))
                           (Keras.get_weights Example.critic_a).
Proof.
  destruct (learn_on_stackable_batch Example.linear Example.agent1 Example.batch)
    as (s' & Hrun & Hc & _ & Hct & _).
  - repeat split; try discriminate.
    + apply Nat.ltb_lt. reflexivity.
    + exists 2%nat. repeat constructor.
    + exists 2%nat. repeat constructor.
    + repeat constructor.
  - repeat constructor.
  - apply nudge_keeps_shapes.
  - apply nudge_keeps_shapes.
  - split; reflexivity.
  - repeat constructor.
  - repeat constructor.
  - repeat constructor.
  - repeat constructor.
  - eexists. split; reflexivity.
  - eexists. split; reflexivity.
  - exists s'. split; [exact Hrun|]. rewrite Hc. exact Hct.
Defined.



(** The mountain car's critics on numpy from 1.24 on: a kernel of shape
    (3, 1) next to a bias of shape (1). *)
Lemma soft_update_strict_ragged_witness :
  soft_update (Example.linear_on Np.Strict) CriticLocal CriticTarget 0.5
              Example.agent1 =
  (inl ValueError, record (SoftUpdate CriticLocal CriticTarget 0.5) Example.agent1).
Proof.
  apply (soft_update_strict_ragged (Example.linear_on Np.Strict)
           CriticLocal CriticTarget 0.5 Example.agent1).
  - reflexivity.
  - left. reflexivity.
Defined.

(** The mountain car's critic before numpy 1.24: shapes (3, 1) and (1)
    start with different dimensions. *)
Lemma entrywise_iff_witness :
  entrywise Np.Legacy (Keras.get_weights Example.critic_a) /\
  ~ entrywise Np.Strict (Keras.get_weights Example.critic_a) /\
  ~ entrywise Np.Legacy (Keras.get_weights Cases.actor_square_local).
Proof.
  split; [|split].
  - apply entrywise_iff; [repeat constructor|]. right. split; reflexivity.
  - intros H. apply entrywise_iff in H; [|repeat constructor].
    destruct H as [H|[H _]]; discriminate.
  - intros H. apply entrywise_iff in H; [|repeat constructor].
    destruct H as [H|[_ H]]; discriminate.
Defined.

Lemma preprocess_state_monotone_witness :
  exists y y',
    preprocess_state [-0.3; 0.07] Example.agent0 = (inr y, Example.agent0) /\
    preprocess_state [0; 0.07] Example.agent0 = (inr y', Example.agent0) /\
    Forall2 Qle y y'.
Proof.
  destruct (preprocess_state_monotone Example.agent0
              [-0.3; 0.07] [0; 0.07])
    as (y & y' & H & H' & Hle).
  - reflexivity.
  - repeat constructor.
  - reflexivity.
  - reflexivity.
  - exists y, y'. repeat split; try assumption.
    apply Hle. repeat constructor; discriminate.
Defined.

Lemma ready_along_runs_witness :
  act_ready (run_calls Example.linear Cases.loop Example.agent0).
Proof.
  apply ready_along_runs.
  - repeat split; try reflexivity. apply Nat.ltb_lt. reflexivity.
  - repeat constructor.
Defined.

(** A step whose learning trips the size assertion of the critic's soft
    update. *)
Lemma step_failures_witness :
  fst (step Example.linear [-0.3; 0.07] [0.5] (-1) [-0.2; 0.06] false
            (fun k => k) Cases.agent_small_short) = inl AssertionError /\
  (AssertionError = ValueError \/ AssertionError = AssertionError).
Proof.
  split; [reflexivity|].
  apply (step_failures Example.linear Cases.agent_small_short
           [-0.3; 0.07] [0.5] (-1) [-0.2; 0.06] false (fun k => k)).
  - reflexivity.
  - reflexivity.
Defined.

(** The mountain car with its four networks is constructible; with a target
    critic one tensor short it is not. *)
Lemma init_returns_iff_witness :
  (exists s, init Example.mountain_car Example.actor_a Example.actor_b
                  Example.critic_a Example.critic_b = inr s) /\
  ~ (exists s, init Example.mountain_car Example.actor_a Example.actor_b
                    Example.critic_a Example.critic_short = inr s).
Proof.
  split.
  - apply init_returns_iff. unfold pairable.
    repeat split; try discriminate; auto.
  - intros H. apply init_returns_iff in H.
    destruct H as (_ & _ & _ & _ & H & _). discriminate.
Defined.

(** The local actor of [agent1] is that of [agent0]; its local critic is
    another. *)
Lemma act_reads_local_actor_only_witness :
  fst (act Example.linear [-0.3; 0.07] [8] Example.agent1) =
  fst (act Example.linear [-0.3; 0.07] [8] Example.agent0).
Proof.
  apply (act_reads_local_actor_only Example.linear Example.agent1 Example.agent0).
  - reflexivity.
  - reflexivity.
Defined.

End DDPG.
